(** * tauri-plugin-shell, [dist-js/index.mjs]: EventEmitter and Command

    A shallow embedding of the JavaScript binding.  Objects that the source
    mutates in place and shares by reference (listener arrays, the caller's
    argument array) live in stores addressed by location, so that aliasing
    is visible.  Listeners supplied by the caller are referred to by an
    identity and their code is looked up in a table; listeners may call back
    into the emitters, so running them takes fuel.

    Scope of the model: strings are ASCII; numbers are integers that a
    JavaScript number holds exactly and prints in plain decimal (magnitude
    below 2^53); functions of the caller do not throw (the one exception modelled is the
    [TypeError] of spreading a non-iterable in [collectOutput]); the bridge
    ([invoke], [transformCallback]) is the environment: it receives the
    requests recorded in [sent] and delivers events to the callback. *)

From stdpp Require Import gmap strings list fin_maps pretty.
From Stdlib Require Import ZArith Lia Ascii.

Open Scope nat_scope.

(** ** Values *)

(** The three [EventEmitter] objects of one [Command]: the command itself
    ([class Command extends EventEmitter]), [this.stdout], [this.stderr]. *)
Inductive emitter := ESelf | EStdout | EStderr.

#[global] Instance emitter_eq_dec : EqDecision emitter.
Proof. solve_decision. Defined.

(** Function objects.  [!==] on functions is identity of the object:
    - [FUser i]: the [i]-th function written by the caller;
    - [FWrap k]: the [k]-th [wrapper] arrow function created by [once] or
      [prependOnceListener];
    - [FReject p], [FPush b], [FClose p bo be]: the closures created by
      [Command.execute()]: the promise's [reject], [(line) => buf.push(line)]
      and the [close] handler, closed over promise [p] and buffers. *)
Inductive fref :=
| FUser (i : nat)
| FWrap (k : nat)
| FReject (p : nat)
| FPush (b : nat)
| FClose (p bo be : nat).

#[global] Instance fref_eq_dec : EqDecision fref.
Proof. solve_decision. Defined.

(** Payloads that travel through the emitters: a line of text, a byte
    array (numbers), or the [{code, signal}] object of [Terminated]. *)
Inductive payload :=
| PText (s : string)
| PBytes (bs : list Z)
| PExit (code signal : option Z).

(** A property read off a payload: [undefined], [null] or a number. *)
Inductive jsfield := JUndefined | JNull | JNum (z : Z).

Definition field_of (o : option Z) : jsfield :=
  match o with Some z => JNum z | None => JNull end.

(** [payload.code] and [payload.signal]; absent on strings and arrays. *)
Definition payload_code (p : payload) : jsfield :=
  match p with PExit c _ => field_of c | _ => JUndefined end.

Definition payload_signal (p : payload) : jsfield :=
  match p with PExit _ s => field_of s | _ => JUndefined end.

(** The wire shape [{ event, payload }]. *)
Record event := Event { ev_tag : string; ev_payload : payload }.

Inductive output := OText (s : string) | OBytes (bs : list Z).

Record CommandOutput := Output {
  out_code : jsfield;
  out_signal : jsfield;
  out_stdout : output;
  out_stderr : output }.

Inductive promise :=
| Pending
| Resolved (o : CommandOutput)
| Rejected (e : payload).

Record options := Options { encoding : option string; sidecar : bool }.

(** Caller-side argument of [Command.create(program, args)]. *)
Inductive argval := AUndefined | AStr (s : string) | ARef (l : nat).

(** The payload of [invoke("plugin:shell|execute", ...)]; [rq_args] is the
    array object itself (a reference), or a string primitive. *)
Record request := Request {
  rq_program : string;
  rq_args : argval;
  rq_options : options;
  rq_onEventFn : nat }.

Record Child := mkChild { pid : Z }.

Inductive reply := Ack (p : Z) | Nack (err : payload).

Inductive settled (A : Type) := Fulfilled (a : A) | Failed (err : payload).
Arguments Fulfilled {A} a.
Arguments Failed {A} err.

(** Calls a caller-written function can make on the emitters. *)
Inductive call :=
| On (e : emitter) (n : string) (f : fref)
| Once (e : emitter) (n : string) (f : fref)
| Off (e : emitter) (n : string) (f : fref)
| PrependListener (e : emitter) (n : string) (f : fref)
| PrependOnceListener (e : emitter) (n : string) (f : fref)
| RemoveAllListeners (e : emitter) (n : option string)
| Emit (e : emitter) (n : string) (a : payload).

(** ** The state *)

Record world := World {
  registry : emitter → gmap string nat; (* [eventListeners] of each emitter *)
  heap : list (list fref);              (* listener arrays, by location *)
  wrappers : list (emitter * string * fref); (* [once] closures: this, eventName, listener *)
  calls : list (nat * payload);         (* invocations of caller functions, oldest first *)
  buffers : list (list payload);        (* [stdout]/[stderr] arrays of [execute()] *)
  promises : list promise;              (* promises returned by [execute()] *)
  program : string;
  args : nat;                           (* [this.args], an array in [store] *)
  cmd_options : options;
  store : list (bool * list string);    (* string arrays: frozen flag, elements *)
  sent : list request }.                (* requests handed to [invoke], oldest first *)

Definition set_registry (r : emitter → gmap string nat) (w : world) : world :=
  World r (heap w) (wrappers w) (calls w) (buffers w) (promises w)
        (program w) (args w) (cmd_options w) (store w) (sent w).

Definition set_heap (h : list (list fref)) (w : world) : world :=
  World (registry w) h (wrappers w) (calls w) (buffers w) (promises w)
        (program w) (args w) (cmd_options w) (store w) (sent w).

Definition set_wrappers (x : list (emitter * string * fref)) (w : world) : world :=
  World (registry w) (heap w) x (calls w) (buffers w) (promises w)
        (program w) (args w) (cmd_options w) (store w) (sent w).

Definition set_calls (x : list (nat * payload)) (w : world) : world :=
  World (registry w) (heap w) (wrappers w) x (buffers w) (promises w)
        (program w) (args w) (cmd_options w) (store w) (sent w).

Definition set_buffers (x : list (list payload)) (w : world) : world :=
  World (registry w) (heap w) (wrappers w) (calls w) x (promises w)
        (program w) (args w) (cmd_options w) (store w) (sent w).

Definition set_promises (x : list promise) (w : world) : world :=
  World (registry w) (heap w) (wrappers w) (calls w) (buffers w) x
        (program w) (args w) (cmd_options w) (store w) (sent w).

Definition set_options (x : options) (w : world) : world :=
  World (registry w) (heap w) (wrappers w) (calls w) (buffers w) (promises w)
        (program w) (args w) x (store w) (sent w).

Definition set_store (x : list (bool * list string)) (w : world) : world :=
  World (registry w) (heap w) (wrappers w) (calls w) (buffers w) (promises w)
        (program w) (args w) (cmd_options w) x (sent w).

Definition set_sent (x : list request) (w : world) : world :=
  World (registry w) (heap w) (wrappers w) (calls w) (buffers w) (promises w)
        (program w) (args w) (cmd_options w) (store w) x.

(** [this.eventListeners = m] on emitter [e]. *)
Definition set_listeners (e : emitter) (m : gmap string nat) (w : world) : world :=
  set_registry (λ e', if decide (e' = e) then m else registry w e') w.

(** The array currently stored under [eventListeners[n]], if the key exists. *)
Definition listeners (e : emitter) (n : string) (w : world) : option (list fref) :=
  l ← registry w e !! n; heap w !! l.

(** ** EventEmitter *)

(** [on(eventName, listener)]: push onto the existing array, or store a
    fresh one-element array. *)
Definition on (e : emitter) (n : string) (f : fref) (w : world) : world :=
  match registry w e !! n with
  | Some l => set_heap (alter (λ a, a ++ [f]) l (heap w)) w
  | None =>
      set_listeners e (<[n := length (heap w)]> (registry w e))
        (set_heap (heap w ++ [[f]]) w)
  end.

Definition addListener := on.

(** [off(eventName, listener)]: [filter] builds a new array, which replaces
    the old one under the key; the old array object is left as it was. *)
Definition off (e : emitter) (n : string) (f : fref) (w : world) : world :=
  match registry w e !! n with
  | Some l =>
      set_listeners e (<[n := length (heap w)]> (registry w e))
        (set_heap (heap w ++ [filter (λ g, g ≠ f) (default [] (heap w !! l))]) w)
  | None => w
  end.

Definition removeListener := off.

(** [once(eventName, listener)]: a new [wrapper] closure is registered. *)
Definition once (e : emitter) (n : string) (f : fref) (w : world) : world :=
  addListener e n (FWrap (length (wrappers w)))
    (set_wrappers (wrappers w ++ [(e, n, f)]) w).

(** [removeAllListeners(event)]: [if (event)] is false for [undefined] and
    for the empty string. *)
Definition removeAllListeners (e : emitter) (ev : option string) (w : world) : world :=
  match ev with
  | Some n => if decide (n = "") then set_listeners e ∅ w
              else set_listeners e (delete n (registry w e)) w
  | None => set_listeners e ∅ w
  end.

Definition listenerCount (e : emitter) (n : string) (w : world) : nat :=
  match registry w e !! n with
  | Some l => length (default [] (heap w !! l))
  | None => 0
  end.

(** [prependListener]: [unshift] on the existing array. *)
Definition prependListener (e : emitter) (n : string) (f : fref) (w : world) : world :=
  match registry w e !! n with
  | Some l => set_heap (alter (λ a, f :: a) l (heap w)) w
  | None =>
      set_listeners e (<[n := length (heap w)]> (registry w e))
        (set_heap (heap w ++ [[f]]) w)
  end.

Definition prependOnceListener (e : emitter) (n : string) (f : fref) (w : world) : world :=
  prependListener e n (FWrap (length (wrappers w)))
    (set_wrappers (wrappers w ++ [(e, n, f)]) w).

(** ** Promises and buffers of [execute()] *)

(** [resolve]/[reject]: only the first settlement counts. *)
Definition settle (p : nat) (s : promise) (w : world) : world :=
  match promises w !! p with
  | Some Pending => set_promises (<[p := s]> (promises w)) w
  | _ => w
  end.

Definition push_buffer (b : nat) (a : payload) (w : world) : world :=
  set_buffers (alter (λ l, l ++ [a]) b (buffers w)) w.

(** [Array.prototype.join]. *)
Fixpoint js_join (sep : string) (l : list string) : string :=
  match l with
  | [] => ""
  | [x] => x
  | x :: r => x +:+ sep +:+ js_join sep r
  end.

(** [ToString] of a payload, as [join] applies it to each element.  An array
    of numbers prints as its elements in decimal, separated by commas; this
    is what JavaScript prints for integers of magnitude below 10^21 (beyond
    that it switches to exponent notation, which is outside the model). *)
Definition to_js_string (p : payload) : string :=
  match p with
  | PText s => s
  | PBytes bs => js_join "," (pretty <$> bs)
  | PExit _ _ => "[object Object]"
  end.

(** [ToNumber] then [ToUint8] of a one-character string (ASCII): a digit is
    its value, anything else gives [NaN] or [0], both stored as [0]. *)
Definition char_to_uint8 (c : Ascii.ascii) : Z :=
  let n := Z.of_nat (Ascii.nat_of_ascii c) in
  if ((48 <=? n) && (n <=? 57))%Z then (n - 48)%Z else 0%Z.

(** [...c]: the elements [c] iterates over; an object is not iterable. *)
Definition spread (c : payload) : option (list Z) :=
  match c with
  | PBytes bs => Some bs
  | PText s => Some (char_to_uint8 <$> String.list_ascii_of_string s)
  | PExit _ _ => None
  end.

(** [new Uint8Array([...])]: each number is stored modulo 256. *)
Definition Uint8Array (l : list Z) : list Z := (λ z, z mod 256)%Z <$> l.

(** The line feed, ["\n"]. *)
Definition LF : string := String (Ascii.ascii_of_nat 10) "".

(** [collectOutput(events)]; [None] is the [TypeError] of a failed spread. *)
Definition collectOutput (o : options) (events : list payload) : option output :=
  if decide (encoding o = Some "raw") then
    OBytes <$> foldl (λ acc c, p ← acc; s ← spread c; Some (Uint8Array (p ++ s ++ [10%Z])))
                     (Some (Uint8Array [])) events
  else Some (OText (js_join LF (to_js_string <$> events))).

(** ** Running listeners *)

Inductive result (A : Type) :=
| OutOfFuel
| Threw (w : world)
| Ret (w : world) (a : A).
Arguments OutOfFuel {A}.
Arguments Threw {A} w.
Arguments Ret {A} w a.

Definition rbind {A B} (r : result A) (k : world → A → result B) : result B :=
  match r with
  | OutOfFuel => OutOfFuel
  | Threw w => Threw w
  | Ret w a => k w a
  end.

Definition rmap {A B} (f : A → B) (r : result A) : result B :=
  rbind r (λ w a, Ret w (f a)).

Inductive task :=
| TCall (f : fref) (a : payload)      (* [f(a)] *)
| TIter (l i : nat) (a : payload)     (* rest of [for (const listener of listeners) listener(a)] *)
| TBody (cs : list call).             (* rest of the body of a caller function *)

Definition log_call (i : nat) (a : payload) (w : world) : world :=
  set_calls (calls w ++ [(i, a)]) w.

Section Run.

(** The code of the caller's functions. *)
Variable code : nat → list call.

Fixpoint exec (fuel : nat) (t : task) (w : world) : result unit :=
  match fuel with
  | 0 => OutOfFuel
  | S k =>
    match t with
    | TIter l i a =>
        (* the array iterator reads the live array at each step *)
        match heap w !! l ≫= (λ arr, arr !! i) with
        | Some f => rbind (exec k (TCall f a) w) (λ w' _, exec k (TIter l (S i) a) w')
        | None => Ret w ()
        end
    | TCall f a =>
        match f with
        | FUser i => exec k (TBody (code i)) (log_call i a w)
        | FWrap j =>
            match wrappers w !! j with
            | Some (e, n, g) => exec k (TCall g a) (removeListener e n (FWrap j) w)
            | None => Ret w ()
            end
        | FReject p => Ret (settle p (Rejected a) w) ()
        | FPush b => Ret (push_buffer b a w) ()
        | FClose p bo be =>
            match collectOutput (cmd_options w) (default [] (buffers w !! bo)) with
            | Some so =>
                match collectOutput (cmd_options w) (default [] (buffers w !! be)) with
                | Some se =>
                    Ret (settle p (Resolved (Output (payload_code a) (payload_signal a) so se)) w) ()
                | None => Threw w
                end
            | None => Threw w
            end
        end
    | TBody [] => Ret w ()
    | TBody (c :: cs) =>
        rbind
          match c with
          | On e n f => Ret (on e n f w) ()
          | Once e n f => Ret (once e n f w) ()
          | Off e n f => Ret (off e n f w) ()
          | PrependListener e n f => Ret (prependListener e n f w) ()
          | PrependOnceListener e n f => Ret (prependOnceListener e n f w) ()
          | RemoveAllListeners e n => Ret (removeAllListeners e n w) ()
          | Emit e n a =>
              match registry w e !! n with
              | Some l => exec k (TIter l 0 a) w
              | None => Ret w ()
              end
          end
          (λ w' _, exec k (TBody cs) w')
    end
  end.

(** [emit(eventName, arg)]. *)
Definition emit (fuel : nat) (e : emitter) (n : string) (a : payload) (w : world)
  : result bool :=
  match registry w e !! n with
  | Some l => rmap (λ _, true) (exec fuel (TIter l 0 a) w)
  | None => Ret w false
  end.

(** A script of calls made from the top level. *)
Definition run (fuel : nat) (cs : list call) (w : world) : result unit :=
  exec fuel (TBody cs) w.

(** ** Command *)

(** The callback that [spawn()] hands to the bridge. *)
Definition on_event (fuel : nat) (ev : event) (w : world) : result unit :=
  if String.eqb (ev_tag ev) "Error" then
    rmap (λ _, ()) (emit fuel ESelf "error" (ev_payload ev) w)
  else if String.eqb (ev_tag ev) "Terminated" then
    rmap (λ _, ()) (emit fuel ESelf "close" (ev_payload ev) w)
  else if String.eqb (ev_tag ev) "Stdout" then
    rmap (λ _, ()) (emit fuel EStdout "data" (ev_payload ev) w)
  else if String.eqb (ev_tag ev) "Stderr" then
    rmap (λ _, ()) (emit fuel EStderr "data" (ev_payload ev) w)
  else Ret w ().

(** The bridge delivers events one after the other; an exception thrown by
    the callback is the host's to report and does not stop later events. *)
Fixpoint deliver (fuel : nat) (evs : list event) (w : world) : option world :=
  match evs with
  | [] => Some w
  | ev :: r =>
      match on_event fuel ev w with
      | OutOfFuel => None
      | Threw w' => deliver fuel r w'
      | Ret w' _ => deliver fuel r w'
      end
  end.

End Run.

(** [Object.freeze(arr)]. *)
Definition freeze (l : nat) (w : world) : world :=
  set_store (alter (λ '(_, xs), (true, xs)) l (store w)) w.

(** The module-level [execute(onEvent, program, args = [], options)]: the
    array is frozen, then the same object goes into the request. *)
Definition execute_fn (onEventFn : nat) (prog : string) (a : argval) (o : options)
    (w : world) : world :=
  match a with
  | AUndefined =>
      let l := length (store w) in
      set_sent (sent w ++ [Request prog (ARef l) o onEventFn])
        (set_store (store w ++ [(true, [])]) w)
  | AStr s => set_sent (sent w ++ [Request prog (AStr s) o onEventFn]) w
  | ARef l => set_sent (sent w ++ [Request prog (ARef l) o onEventFn]) (freeze l w)
  end.

(** What the caller can later try on an array it holds: any in-place
    change [g]; on a frozen array the change does not happen. *)
Definition mutate (l : nat) (g : list string → list string) (w : world) : world :=
  set_store (alter (λ '(fz, xs), if fz : bool then (fz, xs) else (fz, g xs)) l (store w)) w.

(** The argument sequence a request denotes when the bridge reads it. *)
Definition request_args (w : world) (r : request) : option (list string) :=
  match rq_args r with
  | ARef l => snd <$> store w !! l
  | AStr s => Some [s]
  | AUndefined => None
  end.

(** [new Command(program, args = [], options)] with the caller's arrays in
    [st]: [this.args = typeof args === "string" ? [args] : args], so a string
    becomes a fresh one-element array and an array is kept by reference. *)
Definition args_loc (a : argval) (st : list (bool * list string)) : nat :=
  match a with
  | ARef l => l
  | _ => length st
  end.

Definition args_store (a : argval) (st : list (bool * list string))
  : list (bool * list string) :=
  match a with
  | AUndefined => st ++ [(false, [])]
  | AStr s => st ++ [(false, [s])]
  | ARef _ => st
  end.

Definition new_Command (prog : string) (a : argval) (o : option options)
    (st : list (bool * list string)) : world :=
  World (λ _, ∅) [] [] [] [] [] prog (args_loc a st)
        (default (Options None false) o) (args_store a st) [].

Definition create := new_Command.

Definition Command_sidecar (prog : string) (a : argval) (o : option options)
    (st : list (bool * list string)) : world :=
  let w := new_Command prog a o st in
  set_options (Options (encoding (cmd_options w)) true) w.

(** [spawn()]: the request is issued; the token of the callback is its
    position among the requests. *)
Definition spawn (w : world) : world :=
  execute_fn (length (sent w)) (program w) (ARef (args w)) (cmd_options w) w.

(** [.then((pid) => new Child(pid))]. *)
Definition spawn_result (r : reply) : settled Child :=
  match r with
  | Ack p => Fulfilled (mkChild p)
  | Nack err => Failed err
  end.

(** [execute()]: returns the new promise's index. *)
Definition execute (w : world) : world * nat :=
  let p := length (promises w) in
  let w := set_promises (promises w ++ [Pending]) w in
  let w := on ESelf "error" (FReject p) w in
  let bo := length (buffers w) in
  let be := S bo in
  let w := set_buffers (buffers w ++ [[]; []]) w in
  let w := on EStdout "data" (FPush bo) w in
  let w := on EStderr "data" (FPush be) w in
  let w := on ESelf "close" (FClose p bo be) w in
  (spawn w, p).

(** [this.spawn().catch(reject)]. *)
Definition execute_reply (p : nat) (r : reply) (w : world) : world :=
  match r with
  | Ack _ => w
  | Nack err => settle p (Rejected err) w
  end.

(** ** Derived notions used in the statements *)

(** The listener entries registered for [n] on [e], in order. *)
Definition entries (e : emitter) (n : string) (w : world) : list fref :=
  default [] (listeners e n w).

(** Every key of every [eventListeners] object holds an array of the heap,
    and no array is stored under two keys. *)
Definition registry_ok (w : world) : Prop :=
  (∀ e n l, registry w e !! n = Some l → l < length (heap w)) ∧
  (∀ e n e' n' l, registry w e !! n = Some l → registry w e' !! n' = Some l →
                  e = e' ∧ n = n').


(** A caller function that only records that it was called. *)
Definition plain (code : nat → list call) (f : fref) : Prop :=
  ∃ i, f = FUser i ∧ code i = [].

Definition user_id (f : fref) : option nat :=
  match f with FUser i => Some i | _ => None end.

(** The log entries written when the caller functions among [fs] are each
    called once with [a], in order. *)
Definition logged (a : payload) (fs : list fref) : list (nat * payload) :=
  (λ i, (i, a)) <$> omap user_id fs.

(** How often caller function [i] appears in a call log. *)
Definition times_called (i : nat) (log : list (nat * payload)) : nat :=
  length (filter (λ c, c.1 = i) log).

Definition is_registration (c : call) : bool :=
  match c with
  | On _ _ _ | Once _ _ _ | Off _ _ _ => true
  | _ => false
  end.

Definition known_tag (t : string) : bool :=
  String.eqb t "Error" || String.eqb t "Terminated" ||
  String.eqb t "Stdout" || String.eqb t "Stderr".

(** [Error] and [Terminated] end a session. *)
Definition terminal_tag (t : string) : bool :=
  String.eqb t "Error" || String.eqb t "Terminated".

Definition is_byte (z : Z) : Prop := (0 ≤ z < 256)%Z.

(** The callback failed loudly: it threw, or some function of the caller
    ran, or a promise changed state. *)
Definition surfaced (w : world) (r : result unit) : Prop :=
  match r with
  | Threw _ => True
  | Ret w' _ => calls w' ≠ calls w ∨ promises w' ≠ promises w
  | OutOfFuel => False
  end.

(** ** Reference model of the listener registry, after the specification:
    a mapping from event name to an ordered sequence of callbacks, where
    [on] appends, [once] appends a fresh wrapper and [off] removes every
    entry equal to its argument. *)
Record spec_registry := SpecReg {
  sp_entries : emitter → string → list fref;
  sp_wrappers : nat }.

Definition spec_empty : spec_registry := SpecReg (λ _ _, []) 0.

Definition sp_update (e : emitter) (n : string) (g : list fref → list fref)
    (s : spec_registry) : spec_registry :=
  SpecReg (λ e' n', if decide (e' = e ∧ n' = n) then g (sp_entries s e' n')
                    else sp_entries s e' n')
          (sp_wrappers s).

Definition spec_step (s : spec_registry) (c : call) : spec_registry :=
  match c with
  | On e n f => sp_update e n (λ l, l ++ [f]) s
  | Once e n f =>
      SpecReg (sp_entries (sp_update e n (λ l, l ++ [FWrap (sp_wrappers s)]) s))
              (S (sp_wrappers s))
  | Off e n f => sp_update e n (filter (λ g, g ≠ f)) s
  | _ => s
  end.

Definition spec_run (cs : list call) : spec_registry := foldl spec_step spec_empty cs.

(** ** Concrete callers *)

(** Caller functions that do nothing but get recorded. *)
Definition quiet : nat → list call := λ _, [].

(** Function 0 deregisters itself and emits the event again; the other
    functions are quiet:
    [const A = () => { em.off("e", A); em.emit("e", "inner") }]. *)
Definition reentrant : nat → list call := λ i,
  match i with
  | 0 => [Off ESelf "e" (FUser 0); Emit ESelf "e" (PText "inner")]
  | _ => []
  end.

Definition fresh : world := new_Command "node" AUndefined None [].

Definition stdout_event (c : payload) : event := Event "Stdout" c.
Definition terminated (code signal : option Z) : event :=
  Event "Terminated" (PExit code signal).

(** The effect of a registration call made from the top level. *)
Definition apply_registration (w : world) (c : call) : world :=
  match c with
  | On e n f => on e n f w
  | Once e n f => once e n f w
  | Off e n f => off e n f w
  | _ => w
  end.

(** The heap-allocated registry [w] holds what the reference model holds. *)
Definition models (w : world) (s : spec_registry) : Prop :=
  registry_ok w ∧ length (wrappers w) = sp_wrappers s ∧
  ∀ e n, entries e n w = sp_entries s e n.

(** The listeners that [execute()] registered for promise [p] and buffers
    [bo], [be] are the only ones on their events. *)
Definition executing (p bo be : nat) (w : world) : Prop :=
  listeners ESelf "error" w = Some [FReject p] ∧
  listeners ESelf "close" w = Some [FClose p bo be] ∧
  listeners EStdout "data" w = Some [FPush bo] ∧
  listeners EStderr "data" w = Some [FPush be].

(** Attempts of the caller to change arrays it holds, in order. *)
Definition apply_mutations (ms : list (nat * (list string → list string)))
    (w : world) : world :=
  foldl (λ w m, mutate m.1 m.2 w) w ms.

(** A command with one recording function of the caller on each of the
    four event streams. *)
Definition observed (prog : string) (a : argval) (o : option options)
    (st : list (bool * list string)) : world :=
  on ESelf "error" (FUser 0)
    (on ESelf "close" (FUser 1)
       (on EStdout "data" (FUser 2)
          (on EStderr "data" (FUser 3) (new_Command prog a o st)))).

(** Function 0 registers function 1 for the event it is called for:
    [const A = () => { em.on("e", B) }]; the other functions are quiet. *)
Definition adder : nat → list call := λ i,
  match i with
  | 0 => [On ESelf "e" (FUser 1)]
  | _ => []
  end.


(** The payloads of the events tagged [t], in arrival order. *)
Definition payloads_of (t : string) (evs : list event) : list payload :=
  ev_payload <$> filter (λ ev, ev_tag ev = t) evs.

(** The listeners of a command on which [execute()] was called twice: the
    closures of both calls, for promises 0 and 1 and buffers 0 to 3. *)
Definition executing_twice (w : world) : Prop :=
  listeners ESelf "error" w = Some [FReject 0; FReject 1] ∧
  listeners ESelf "close" w = Some [FClose 0 0 1; FClose 1 2 3] ∧
  listeners EStdout "data" w = Some [FPush 0; FPush 2] ∧
  listeners EStderr "data" w = Some [FPush 1; FPush 3].

(** ** Reference for text aggregation, after the specification: the chunks
    joined with a single newline separator and no trailing separator.  It
    is written with the newline character itself, not with [LF] or
    [js_join]. *)
Fixpoint spec_join_lines (chunks : list string) : string :=
  match chunks with
  | [] => ""
  | [c] => c
  | c :: r => c +:+ String "010"%char (spec_join_lines r)
  end.

(** A string that holds no newline character. *)
Definition no_newline (c : string) : Prop :=
  Forall (λ ch, ch ≠ "010"%char) (String.list_ascii_of_string c).

(** The lines of a text: the pieces between newline characters (a text
    ending in a newline has an empty last line). *)
Fixpoint split_lines (s : string) : list string :=
  match s with
  | "" => [""]
  | String ch r =>
      if decide (ch = "010"%char) then "" :: split_lines r
      else match split_lines r with
           | h :: t => String ch h :: t
           | [] => [String ch ""]
           end
  end.

(** * Properties *)

(** ** The registry of one emitter *)

Lemma registry_set_listeners e m w e' :
  registry (set_listeners e m w) e' = if decide (e' = e) then m else registry w e'.
Proof. reflexivity. Qed.

Lemma listenerCount_entries e n w :
  registry_ok w → listenerCount e n w = length (entries e n w).
Proof.
  intros [Hwf _]. unfold listenerCount, entries, listeners.
  destruct (registry w e !! n) as [l|] eqn:Hl; simpl; [|done].
  destruct (lookup_lt_is_Some_2 (heap w) l (Hwf _ _ _ Hl)) as [a Ha].
  by rewrite Ha.
Qed.

Lemma registry_ok_fresh prog a o st : registry_ok (new_Command prog a o st).
Proof. split; simpl; intros *; by rewrite ?lookup_empty. Qed.

Lemma entries_fresh prog a o st e n : entries e n (new_Command prog a o st) = [].
Proof. reflexivity. Qed.

(** Storing a newly allocated array under a key. *)
Lemma registry_ok_alloc e n a w :
  registry_ok w →
  registry_ok (set_listeners e (<[n := length (heap w)]> (registry w e))
                 (set_heap (heap w ++ [a]) w)).
Proof.
  intros [Hwf Hinj]. split.
  - intros e1 n1 l. simpl. rewrite length_app. simpl.
    case_decide as He; subst.
    + rewrite lookup_insert. case_decide; [intros [= <-]; lia|].
      intros H1. specialize (Hwf _ _ _ H1). lia.
    + intros H1. specialize (Hwf _ _ _ H1). lia.
  - intros e1 n1 e2 n2 l. simpl.
    repeat case_decide; subst; rewrite ?lookup_insert; repeat case_decide; subst;
      intros H1 H2; simplify_eq; try done;
      try (by eapply Hinj);
      try (apply Hwf in H1; lia); try (apply Hwf in H2; lia).
Qed.

Lemma entries_alloc e n a w e' n' :
  registry_ok w →
  entries e' n' (set_listeners e (<[n := length (heap w)]> (registry w e))
                   (set_heap (heap w ++ [a]) w))
  = if decide (e' = e ∧ n' = n) then a else entries e' n' w.
Proof.
  intros [Hwf _]. unfold entries, listeners. simpl.
  destruct (decide (e' = e ∧ n' = n)) as [[-> ->]|Hd].
  - rewrite decide_True by done.
    rewrite lookup_insert_eq. simpl.
    by rewrite lookup_app_r, Nat.sub_diag by lia.
  - assert ((if decide (e' = e) then <[n:=length (heap w)]> (registry w e)
             else registry w e') !! n' = registry w e' !! n') as ->.
    { case_decide; [subst|done]. rewrite lookup_insert_ne; [done|]. naive_solver. }
    destruct (registry w e' !! n') as [l|] eqn:Hl; simpl; [|done].
    by rewrite lookup_app_l by eauto.
Qed.

(** Changing in place the array stored under [(e, n)]. *)
Lemma entries_alter e n l g w e' n' :
  registry_ok w → registry w e !! n = Some l →
  entries e' n' (set_heap (alter g l (heap w)) w)
  = if decide (e' = e ∧ n' = n) then g (entries e' n' w) else entries e' n' w.
Proof.
  intros [Hwf Hinj] Hl. unfold entries, listeners. simpl.
  destruct (decide (e' = e ∧ n' = n)) as [[-> ->]|Hd].
  - rewrite Hl. simpl.
    destruct (lookup_lt_is_Some_2 (heap w) l (Hwf _ _ _ Hl)) as [a Ha].
    by rewrite list_lookup_alter_eq, Ha.
  - destruct (registry w e' !! n') as [l'|] eqn:Hl'; simpl; [|done].
    rewrite list_lookup_alter_ne; [done|].
    intros <-. destruct (Hinj e n e' n' l Hl Hl') as [He Hn]. apply Hd. by split.
Qed.

Lemma registry_ok_alter l g w :
  registry_ok w → registry_ok (set_heap (alter g l (heap w)) w).
Proof.
  intros [Hwf Hinj]. split; simpl; [|done].
  intros *. rewrite length_alter. apply Hwf.
Qed.

Lemma registry_ok_on e n f w : registry_ok w → registry_ok (on e n f w).
Proof.
  intros H. unfold on. destruct (registry w e !! n);
    auto using registry_ok_alter, registry_ok_alloc.
Qed.

Lemma entries_on e n f w e' n' :
  registry_ok w →
  entries e' n' (on e n f w)
  = if decide (e' = e ∧ n' = n) then entries e' n' w ++ [f] else entries e' n' w.
Proof.
  intros H. unfold on. destruct (registry w e !! n) as [l|] eqn:Hl.
  - by apply entries_alter.
  - rewrite entries_alloc by done. case_decide as Hd; [|done].
    destruct Hd as [-> ->]. unfold entries, listeners. by rewrite Hl.
Qed.

Lemma registry_ok_off e n f w : registry_ok w → registry_ok (off e n f w).
Proof.
  intros H. unfold off. destruct (registry w e !! n); auto using registry_ok_alloc.
Qed.

Lemma entries_off e n f w e' n' :
  registry_ok w →
  entries e' n' (off e n f w)
  = if decide (e' = e ∧ n' = n) then filter (λ g, g ≠ f) (entries e' n' w)
    else entries e' n' w.
Proof.
  intros H. unfold off. destruct (registry w e !! n) as [l|] eqn:Hl.
  - rewrite entries_alloc by done. case_decide as Hd; [|done].
    destruct Hd as [-> ->]. unfold entries, listeners. by rewrite Hl.
  - case_decide as Hd; [|done]. destruct Hd as [-> ->].
    unfold entries, listeners. by rewrite Hl.
Qed.

Lemma registry_ok_set_wrappers x w : registry_ok w → registry_ok (set_wrappers x w).
Proof. done. Qed.

Lemma entries_set_wrappers x w e n : entries e n (set_wrappers x w) = entries e n w.
Proof. done. Qed.

Lemma registry_ok_once e n f w : registry_ok w → registry_ok (once e n f w).
Proof. intros H. by apply registry_ok_on, registry_ok_set_wrappers. Qed.

Lemma entries_once e n f w e' n' :
  registry_ok w →
  entries e' n' (once e n f w)
  = if decide (e' = e ∧ n' = n) then entries e' n' w ++ [FWrap (length (wrappers w))]
    else entries e' n' w.
Proof.
  intros H. unfold once, addListener.
  by rewrite entries_on, entries_set_wrappers by by apply registry_ok_set_wrappers.
Qed.

Lemma wrappers_on e n f w : wrappers (on e n f w) = wrappers w.
Proof. unfold on. by destruct (registry w e !! n). Qed.

Lemma wrappers_off e n f w : wrappers (off e n f w) = wrappers w.
Proof. unfold off. by destruct (registry w e !! n). Qed.

Lemma wrappers_once e n f w : wrappers (once e n f w) = wrappers w ++ [(e, n, f)].
Proof. unfold once, addListener. by rewrite wrappers_on. Qed.

Lemma filter_keeps_all {A} (P : A → Prop) `{∀ x, Decision (P x)} (l : list A) :
  Forall P l → filter P l = l.
Proof.
  induction 1 as [|x l Hx _ IH]; [done|].
  rewrite filter_cons_True by done. by rewrite IH.
Qed.

Lemma calls_on e n f w : calls (on e n f w) = calls w.
Proof. unfold on. by destruct (registry w e !! n). Qed.

Lemma calls_off e n f w : calls (off e n f w) = calls w.
Proof. unfold off. by destruct (registry w e !! n). Qed.


(** [off] on a key that exists: the filtered copy is a new array. *)
Lemma off_present e n f w l :
  registry w e !! n = Some l →
  off e n f w
  = set_listeners e (<[n := length (heap w)]> (registry w e))
      (set_heap (heap w ++ [filter (λ g, g ≠ f) (entries e n w)]) w).
Proof. intros Hl. unfold off, entries, listeners. by rewrite Hl. Qed.




(** ** Sequences of registration calls against the reference model *)

Lemma models_fresh prog a o st : models (new_Command prog a o st) spec_empty.
Proof. split; [apply registry_ok_fresh|done]. Qed.

Lemma models_step w s c :
  models w s → is_registration c = true →
  models (apply_registration w c) (spec_step s c).
Proof.
  intros (Hok & Hwr & Hent) Hc. destruct c; try discriminate; simpl.
  - split; [by apply registry_ok_on|]. split; [by rewrite wrappers_on|].
    intros e' n'. rewrite entries_on, Hent by done. done.
  - split; [by apply registry_ok_once|]. split.
    + rewrite wrappers_once, length_app. simpl. lia.
    + intros e' n'. rewrite entries_once, Hent, Hwr by done. done.
  - split; [by apply registry_ok_off|]. split; [by rewrite wrappers_off|].
    intros e' n'. rewrite entries_off, Hent by done. done.
Qed.

Lemma models_run cs : ∀ w s,
  models w s → forallb is_registration cs = true →
  models (foldl apply_registration w cs) (foldl spec_step s cs).
Proof.
  induction cs as [|c cs IH]; intros w s Hm Hcs; [done|].
  simpl in *. apply andb_true_iff in Hcs as [Hc Hcs].
  apply IH; [by apply models_step|done].
Qed.

Section Facts.

Variable code : nat → list call.

Lemma run_registrations cs : ∀ k w,
  forallb is_registration cs = true →
  run code (S (length cs + k)) cs w = Ret (foldl apply_registration w cs) ().
Proof.
  unfold run. induction cs as [|c cs IH]; intros k w Hcs; [done|].
  simpl in Hcs. apply andb_true_iff in Hcs as [Hc Hcs].
  change (S (length (c :: cs) + k)) with (S (S (length cs + k))).
  specialize (IH k). remember (S (length cs + k)) as m eqn:Hm. clear Hm.
  destruct c; try discriminate; simpl; by rewrite IH.
Qed.

(** C8. After any finite sequence of [on]/[once]/[off] calls on a new
    emitter, [listenerCount(name)] is the number of entries the reference
    registry holds for that name (duplicates included: a repeated [on] with
    the same function adds one entry each time), and [off(name, fn)] leaves
    exactly the entries that differ from [fn], so none equal to [fn] stays. *)
Theorem listenerCount_counts_entries cs k prog av o st e n f :
  forallb is_registration cs = true →
  ∃ w, run code (S (length cs + k)) cs (new_Command prog av o st) = Ret w () ∧
       listenerCount e n w = length (sp_entries (spec_run cs) e n) ∧
       listenerCount e n (on e n f (on e n f w)) = listenerCount e n w + 2 ∧
       entries e n (off e n f w) = filter (λ g, g ≠ f) (sp_entries (spec_run cs) e n) ∧
       (f ∉ entries e n (off e n f w)) ∧
       listenerCount e n (off e n f w)
       = length (filter (λ g, g ≠ f) (sp_entries (spec_run cs) e n)).
Proof.
  intros Hcs. eexists. split; [by apply run_registrations|].
  destruct (models_run cs _ _ (models_fresh prog av o st) Hcs) as (Hok & _ & Hent).
  fold (spec_run cs) in Hent.
  set (w := foldl apply_registration (new_Command prog av o st) cs) in *.
  assert (entries e n (off e n f w) = filter (λ g, g ≠ f) (sp_entries (spec_run cs) e n))
    as Hoff.
  { rewrite entries_off, decide_True, Hent by done. done. }
  repeat split.
  - by rewrite listenerCount_entries, Hent.
  - rewrite !listenerCount_entries by auto using registry_ok_on.
    rewrite !entries_on, !decide_True by auto using registry_ok_on.
    rewrite !length_app. simpl. lia.
  - done.
  - rewrite Hoff. intros [Hne _]%list_elem_of_filter. by apply Hne.
  - by rewrite listenerCount_entries, Hoff by by apply registry_ok_off.
Qed.


(** ** Running listeners *)

Lemma exec_iter_step k l i a w f :
  heap w !! l ≫= (λ arr, arr !! i) = Some f →
  exec code (S k) (TIter l i a) w
  = rbind (exec code k (TCall f a) w) (λ w' _, exec code k (TIter l (S i) a) w').
Proof. intros H. simpl. by rewrite H. Qed.

Lemma exec_iter_done k l i a w :
  heap w !! l ≫= (λ arr, arr !! i) = None →
  exec code (S k) (TIter l i a) w = Ret w ().
Proof. intros H. simpl. by rewrite H. Qed.

Lemma exec_call_plain k i a w :
  code i = [] → exec code (S (S k)) (TCall (FUser i) a) w = Ret (log_call i a w) ().
Proof. intros H. simpl. by rewrite H. Qed.

Lemma exec_call_wrapper k j a w e n g :
  wrappers w !! j = Some (e, n, g) →
  exec code (S k) (TCall (FWrap j) a) w
  = exec code k (TCall g a) (removeListener e n (FWrap j) w).
Proof. intros H. simpl. by rewrite H. Qed.

Arguments exec : simpl never.

(** A run of plain listeners in the iterated array: each one is called and
    recorded, nothing else changes. *)
Lemma exec_iter_plain a l post k ps : ∀ pre w,
  heap w !! l = Some (pre ++ ps ++ post) → Forall (plain code) ps →
  exec code (length ps + S (S k)) (TIter l (length pre) a) w
  = exec code (S (S k)) (TIter l (length pre + length ps) a)
      (set_calls (calls w ++ logged a ps) w).
Proof.
  induction ps as [|f ps IH]; intros pre w Hl Hps.
  - simpl length. rewrite Nat.add_0_r. simpl Nat.add.
    unfold logged. simpl. rewrite app_nil_r. by destruct w.
  - apply Forall_cons in Hps as [(i & -> & Hi) Hps].
    change (length (FUser i :: ps) + S (S k)) with (S (length ps + S (S k))).
    rewrite (exec_iter_step _ _ _ _ _ (FUser i)).
    2:{ rewrite Hl. simpl. rewrite lookup_app_r by lia. by rewrite Nat.sub_diag. }
    rewrite (Nat.add_succ_r (length ps)), (Nat.add_succ_r (length ps)).
    rewrite exec_call_plain by done. cbn [rbind].
    rewrite <- !Nat.add_succ_r.
    specialize (IH (pre ++ [FUser i]) (log_call i a w)).
    rewrite length_app in IH. simpl in IH. rewrite Nat.add_1_r in IH.
    rewrite IH; [|by rewrite <- app_assoc|done].
    f_equal; [f_equal; simpl; lia|].
    unfold log_call, set_calls, logged. simpl. by rewrite <- app_assoc.
Qed.

(** With no key for the name, [emit] returns [false] and runs nothing. *)
Lemma emit_no_key fuel e n a w :
  registry w e !! n = None → emit code fuel e n a w = Ret w false.
Proof. intros H. unfold emit. by rewrite H. Qed.

(** With a key, [emit] returns [true] whenever the listeners return. *)
Lemma emit_key_true fuel e n a w w' b :
  is_Some (registry w e !! n) → emit code fuel e n a w = Ret w' b → b = true.
Proof.
  intros [l Hl]. unfold emit. rewrite Hl.
  destruct (exec code fuel (TIter l 0 a) w); simpl; congruence.
Qed.

(** C1. Evaluation at the failing input [on(n, f); off(n, f); emit(n, a)]
    on a new emitter: no listener is registered for [n] any more, yet the
    key is still there, so [emit] returns [true]; nothing runs. *)
Theorem emit_true_after_off k prog av o st e n f a :
  let w := off e n f (on e n f (new_Command prog av o st)) in
  listenerCount e n w = 0 ∧ entries e n w = [] ∧
  emit code (S k) e n a w = Ret w true.
Proof.
  intros w.
  assert (entries e n w = []) as Hent.
  { unfold w. rewrite entries_off by apply registry_ok_on, registry_ok_fresh.
    rewrite decide_True by done.
    rewrite entries_on, decide_True, entries_fresh by (done || apply registry_ok_fresh).
    simpl. rewrite filter_cons_False, filter_nil; [done|]. by intros H; apply H. }
  split; [|split; [done|]].
  - rewrite listenerCount_entries, Hent; [done|].
    apply registry_ok_off, registry_ok_on, registry_ok_fresh.
  - unfold emit. unfold entries, listeners in Hent.
    destruct (registry w e !! n) as [l|] eqn:Hl.
    + simpl in Hent. rewrite exec_iter_done; [done|].
      destruct (heap w !! l) as [arr|]; simpl in *; [by subst|done].
    + exfalso. unfold w, off, on in Hl. simpl in Hl.
      rewrite lookup_empty in Hl. simpl in Hl.
      rewrite decide_True in Hl by done. rewrite lookup_insert_eq in Hl. simpl in Hl.
      rewrite decide_True in Hl by done. by rewrite lookup_insert_eq in Hl.
Qed.


(** ** Command: events delivered to a session running [execute()] *)

Lemma executing_execute prog av o st :
  executing 0 0 1 (execute (new_Command prog av o st)).1.
Proof. repeat split. Qed.

Lemma execute_promise prog av o st :
  (execute (new_Command prog av o st)).2 = 0 ∧
  promises (execute (new_Command prog av o st)).1 = [Pending] ∧
  buffers (execute (new_Command prog av o st)).1 = [[]; []] ∧
  cmd_options (execute (new_Command prog av o st)).1 = default (Options None false) o.
Proof. repeat split. Qed.

Lemma listeners_Some e n w fs :
  listeners e n w = Some fs →
  ∃ l, registry w e !! n = Some l ∧ heap w !! l = Some fs.
Proof.
  unfold listeners. destruct (registry w e !! n) as [l|]; simpl; [eauto|done].
Qed.

(** One listener alone in its array, which leaves the arrays as they are. *)
Lemma emit_single k e n a w f w' :
  listeners e n w = Some [f] →
  exec code (S k) (TCall f a) w = Ret w' () → heap w' = heap w →
  emit code (S (S k)) e n a w = Ret w' true.
Proof.
  intros (l & Hl & Hf)%listeners_Some Hcall Hheap. unfold emit. rewrite Hl.
  rewrite (exec_iter_step _ _ _ _ _ f) by by rewrite Hf.
  rewrite Hcall. cbn [rbind].
  rewrite exec_iter_done; [done|]. by rewrite Hheap, Hf.
Qed.

Lemma emit_single_threw k e n a w f w' :
  listeners e n w = Some [f] →
  exec code (S k) (TCall f a) w = Threw w' →
  emit code (S (S k)) e n a w = Threw w'.
Proof.
  intros (l & Hl & Hf)%listeners_Some Hcall. unfold emit. rewrite Hl.
  rewrite (exec_iter_step _ _ _ _ _ f) by by rewrite Hf.
  by rewrite Hcall.
Qed.

Lemma heap_settle p s w : heap (settle p s w) = heap w.
Proof. unfold settle. by destruct (promises w !! p) as [[]|]. Qed.

Lemma listeners_settle p s w e n : listeners e n (settle p s w) = listeners e n w.
Proof. unfold settle. by destruct (promises w !! p) as [[]|]. Qed.

Lemma options_settle p s w : cmd_options (settle p s w) = cmd_options w.
Proof. unfold settle. by destruct (promises w !! p) as [[]|]. Qed.

Lemma settle_settled p s s' w :
  promises w !! p = Some s → s ≠ Pending → settle p s' w = w.
Proof. intros Hp Hs. unfold settle. rewrite Hp. by destruct s. Qed.

Lemma settle_pending p s w :
  promises w !! p = Some Pending → promises (settle p s w) !! p = Some s.
Proof.
  intros Hp. unfold settle. rewrite Hp. simpl.
  apply list_lookup_insert_eq. by eapply lookup_lt_Some.
Qed.

Lemma executing_settle p bo be q s w :
  executing p bo be w → executing p bo be (settle q s w).
Proof. unfold executing. by rewrite !listeners_settle. Qed.

Lemma executing_push p bo be b c w :
  executing p bo be w → executing p bo be (push_buffer b c w).
Proof. done. Qed.

Lemma executing_set_buffers p bo be x w :
  executing p bo be w → executing p bo be (set_buffers x w).
Proof. done. Qed.

Section Session.

Variables p bo be : nat.

Lemma on_event_stdout k c w :
  executing p bo be w →
  on_event code (S (S k)) (Event "Stdout" c) w = Ret (push_buffer bo c w) ().
Proof.
  intros (_ & _ & H & _). unfold on_event. simpl.
  by rewrite (emit_single k _ _ _ _ _ (push_buffer bo c w) H).
Qed.

Lemma on_event_stderr k c w :
  executing p bo be w →
  on_event code (S (S k)) (Event "Stderr" c) w = Ret (push_buffer be c w) ().
Proof.
  intros (_ & _ & _ & H). unfold on_event. simpl.
  by rewrite (emit_single k _ _ _ _ _ (push_buffer be c w) H).
Qed.

Lemma on_event_error k e w :
  executing p bo be w →
  on_event code (S (S k)) (Event "Error" e) w = Ret (settle p (Rejected e) w) ().
Proof.
  intros (H & _). unfold on_event. simpl.
  by rewrite (emit_single k _ _ _ _ _ (settle p (Rejected e) w) H)
    by (done || apply heap_settle).
Qed.

Lemma on_event_terminated k pl w so se :
  executing p bo be w →
  collectOutput (cmd_options w) (default [] (buffers w !! bo)) = Some so →
  collectOutput (cmd_options w) (default [] (buffers w !! be)) = Some se →
  on_event code (S (S k)) (Event "Terminated" pl) w
  = Ret (settle p (Resolved (Output (payload_code pl) (payload_signal pl) so se)) w) ().
Proof.
  intros (_ & H & _) Hso Hse. unfold on_event. simpl.
  rewrite (emit_single k _ _ _ _ _
             (settle p (Resolved (Output (payload_code pl) (payload_signal pl) so se)) w) H);
    [done| |apply heap_settle].
  unfold exec. by rewrite Hso, Hse.
Qed.

Lemma on_event_terminated_threw k pl w :
  executing p bo be w →
  collectOutput (cmd_options w) (default [] (buffers w !! bo)) = None ∨
  collectOutput (cmd_options w) (default [] (buffers w !! be)) = None →
  on_event code (S (S k)) (Event "Terminated" pl) w = Threw w.
Proof.
  intros (_ & H & _) Hnone. unfold on_event. simpl.
  rewrite (emit_single_threw k _ _ _ _ _ w H); [done|].
  unfold exec. destruct Hnone as [-> | ->]; [done|].
  by destruct (collectOutput _ _).
Qed.

(** An event whose tag is none of the four is dropped by the [switch]. *)
Lemma on_event_unknown fuel ev w :
  known_tag (ev_tag ev) = false → on_event code fuel ev w = Ret w ().
Proof.
  unfold known_tag, on_event. intros H.
  repeat (apply orb_false_iff in H as [H ?]). by rewrite H, H0, H1, H2.
Qed.

(** Whatever the event, the callback of an executing session ends, the
    listeners stay as they are, a settled promise stays settled, and only
    [Error] and [Terminated] touch the promises. *)
Lemma on_event_executing k ev w :
  executing p bo be w →
  ∃ w', (on_event code (S (S k)) ev w = Ret w' () ∨
         on_event code (S (S k)) ev w = Threw w') ∧
        executing p bo be w' ∧
        (∀ s, promises w !! p = Some s → s ≠ Pending → promises w' = promises w) ∧
        (terminal_tag (ev_tag ev) = false → promises w' = promises w).
Proof.
  intros Hex. destruct ev as [t pl].
  destruct (String.eqb t "Error") eqn:E1.
  { apply String.eqb_eq in E1 as ->. rewrite on_event_error by done.
    eexists. split; [by left|]. split; [by apply executing_settle|].
    split; [|done]. intros s Hs Hne. by rewrite (settle_settled _ _ _ _ Hs Hne). }
  destruct (String.eqb t "Terminated") eqn:E2.
  { apply String.eqb_eq in E2 as ->.
    destruct (collectOutput (cmd_options w) (default [] (buffers w !! bo))) as [so|] eqn:Hso;
      [destruct (collectOutput (cmd_options w) (default [] (buffers w !! be)))
         as [se|] eqn:Hse|].
    - rewrite (on_event_terminated _ _ _ so se) by done.
      eexists. split; [by left|]. split; [by apply executing_settle|].
      split; [|done]. intros s Hs Hne. by rewrite (settle_settled _ _ _ _ Hs Hne).
    - rewrite on_event_terminated_threw by auto. eauto 10.
    - rewrite on_event_terminated_threw by auto. eauto 10. }
  destruct (String.eqb t "Stdout") eqn:E3.
  { apply String.eqb_eq in E3 as ->. rewrite on_event_stdout by done.
    eexists. split; [by left|]. split; [by apply executing_push|]. by split. }
  destruct (String.eqb t "Stderr") eqn:E4.
  { apply String.eqb_eq in E4 as ->. rewrite on_event_stderr by done.
    eexists. split; [by left|]. split; [by apply executing_push|]. by split. }
  rewrite on_event_unknown by (unfold known_tag; simpl; by rewrite E1, E2, E3, E4).
  eauto 10.
Qed.

Lemma deliver_app fuel evs1 evs2 w :
  deliver code fuel (evs1 ++ evs2) w
  = deliver code fuel evs1 w ≫= deliver code fuel evs2.
Proof.
  revert w. induction evs1 as [|ev evs1 IH]; intros w; [done|].
  simpl. destruct (on_event code fuel ev w); [done|apply IH..].
Qed.

Lemma deliver_executing k evs : ∀ w,
  executing p bo be w →
  ∃ w', deliver code (S (S k)) evs w = Some w' ∧
        executing p bo be w' ∧
        (∀ s, promises w !! p = Some s → s ≠ Pending → promises w' = promises w) ∧
        (Forall (λ ev, terminal_tag (ev_tag ev) = false) evs →
         promises w' = promises w).
Proof.
  induction evs as [|ev evs IH]; intros w Hex; [by eauto 10|].
  destruct (on_event_executing k ev w Hex) as (w1 & Hrun & Hex1 & Hset1 & Hnt1).
  destruct (IH w1 Hex1) as (w2 & Hdel & Hex2 & Hset2 & Hnt2).
  exists w2. split; [|split; [done|split]].
  - cbn [deliver]. by destruct Hrun as [-> | ->].
  - intros s Hs Hne. rewrite <- (Hset1 s Hs Hne).
    apply (Hset2 s); [|done]. by rewrite (Hset1 s Hs Hne).
  - intros [H1 H2]%Forall_cons. by rewrite Hnt2, Hnt1.
Qed.

(** A run of [Stdout] events only fills the stdout buffer, in order. *)
Lemma deliver_stdout k cs : ∀ w,
  executing p bo be w →
  deliver code (S (S k)) (stdout_event <$> cs) w
  = Some (set_buffers (alter (λ l, l ++ cs) bo (buffers w)) w).
Proof.
  induction cs as [|c cs IH]; intros w Hex.
  - simpl. rewrite list_alter_id by (intros; apply app_nil_r). by destruct w.
  - cbn [fmap list_fmap deliver]. unfold stdout_event at 1.
    rewrite on_event_stdout by done.
    rewrite IH by done. unfold push_buffer, set_buffers. simpl.
    rewrite list_alter_alter_eq. do 2 f_equal.
    apply list_alter_ext; [|done]. intros l _. simpl. by rewrite <- app_assoc.
Qed.

End Session.

(** ** Aggregation *)

Lemma js_join_texts (cs : list string) : to_js_string <$> (PText <$> cs) = cs.
Proof. induction cs as [|c cs IH]; [done|]. rewrite !fmap_cons. by f_equal. Qed.

Lemma Uint8Array_bytes l : Forall is_byte l → Uint8Array l = l.
Proof.
  unfold Uint8Array. induction 1 as [|z l Hz _ IH]; [done|].
  rewrite fmap_cons, IH. f_equal. apply Z.mod_small. exact Hz.
Qed.

Lemma collect_raw_bytes chunks : ∀ acc,
  Forall is_byte acc → Forall (Forall is_byte) chunks →
  foldl (λ acc c, p ← acc; s ← spread c; Some (Uint8Array (p ++ s ++ [10%Z])))
        (Some acc) (PBytes <$> chunks)
  = Some (acc ++ concat ((λ c, c ++ [10%Z]) <$> chunks)).
Proof.
  induction chunks as [|c chunks IH]; intros acc Hacc Hcs.
  - simpl. by rewrite app_nil_r.
  - apply Forall_cons in Hcs as [Hc Hcs]. rewrite !fmap_cons. cbn [foldl mbind option_bind spread].
    assert (Forall is_byte (acc ++ c ++ [10%Z])) as Hb.
    { repeat apply Forall_app_2; try done. repeat constructor; done. }
    rewrite Uint8Array_bytes by done. rewrite IH by done.
    simpl. by rewrite <- !app_assoc.
Qed.

(** ** Command: the claims about [execute()], [spawn()] and the request *)

Section Pending.

(** A session on which [execute()] has just been called: promise [p] is
    pending and both buffers are empty. *)
Variables (p bo be : nat) (w : world).
Hypothesis Hex : executing p bo be w.
Hypothesis Hp : promises w !! p = Some Pending.
Hypothesis Hbo : buffers w !! bo = Some [].
Hypothesis Hbe : buffers w !! be = Some [].
Hypothesis Hne : bo ≠ be.

Lemma session_text_stdout k chunks c s :
  encoding (cmd_options w) ≠ Some "raw" →
  ∃ w', deliver code (S (S k))
          ((stdout_event <$> (PText <$> chunks)) ++ [terminated c s]) w = Some w' ∧
        promises w' !! p
        = Some (Resolved (Output (field_of c) (field_of s)
                            (OText (js_join LF chunks)) (OText ""))).
Proof.
  intros Htext.
  rewrite deliver_app, (deliver_stdout p bo be) by done.
  cbn [mbind option_bind deliver]. unfold terminated.
  rewrite (on_event_terminated p bo be _ _ _
             (OText (js_join LF chunks)) (OText ""));
    [| by apply executing_set_buffers | |].
  - eexists. split; [reflexivity|]. by apply settle_pending.
  - unfold collectOutput. simpl. rewrite decide_False by done.
    rewrite list_lookup_alter_eq, Hbo. simpl. by rewrite js_join_texts.
  - unfold collectOutput. simpl. rewrite decide_False by done.
    by rewrite list_lookup_alter_ne, Hbe by done.
Qed.

Lemma session_raw_stdout k chunks c s :
  encoding (cmd_options w) = Some "raw" →
  Forall (Forall is_byte) chunks →
  ∃ w', deliver code (S (S k))
          ((stdout_event <$> (PBytes <$> chunks)) ++ [terminated c s]) w = Some w' ∧
        promises w' !! p
        = Some (Resolved (Output (field_of c) (field_of s)
                            (OBytes (concat ((λ ch, ch ++ [10%Z]) <$> chunks)))
                            (OBytes []))).
Proof.
  intros Hraw Hbytes.
  rewrite deliver_app, (deliver_stdout p bo be) by done.
  cbn [mbind option_bind deliver]. unfold terminated.
  rewrite (on_event_terminated p bo be _ _ _
             (OBytes (concat ((λ ch, ch ++ [10%Z]) <$> chunks))) (OBytes []));
    [| by apply executing_set_buffers | |].
  - eexists. split; [reflexivity|]. by apply settle_pending.
  - unfold collectOutput. simpl. rewrite decide_True by done.
    rewrite list_lookup_alter_eq, Hbo. simpl.
    change (Uint8Array []) with (@nil Z). by rewrite collect_raw_bytes.
  - unfold collectOutput. simpl. rewrite decide_True by done.
    by rewrite list_lookup_alter_ne, Hbe by done.
Qed.

Lemma session_error k pre e post :
  Forall (λ ev, terminal_tag (ev_tag ev) = false) pre →
  (∃ w', deliver code (S (S k)) (pre ++ [Event "Error" e]) w = Some w' ∧
         promises w' !! p = Some (Rejected e)) ∧
  (∃ w', deliver code (S (S k)) (pre ++ Event "Error" e :: post) w = Some w' ∧
         promises w' !! p = Some (Rejected e) ∧
         ∀ out, promises w' !! p ≠ Some (Resolved out)).
Proof.
  intros Hpre.
  destruct (deliver_executing p bo be k pre _ Hex) as (w1 & Hd1 & Hex1 & _ & Hp1).
  specialize (Hp1 Hpre).
  assert (deliver code (S (S k)) [Event "Error" e] w1
          = Some (settle p (Rejected e) w1)) as Hd2.
  { cbn [deliver]. by rewrite (on_event_error p bo be). }
  assert (promises (settle p (Rejected e) w1) !! p = Some (Rejected e)) as Hrej.
  { apply settle_pending. by rewrite Hp1. }
  split.
  - exists (settle p (Rejected e) w1). split; [|done].
    rewrite deliver_app, Hd1. exact Hd2.
  - destruct (deliver_executing p bo be k post (settle p (Rejected e) w1))
      as (w3 & Hd3 & _ & Hkeep & _); [by apply executing_settle|].
    specialize (Hkeep _ Hrej ltac:(done)).
    exists w3. split; [|split].
    + change (pre ++ Event "Error" e :: post)
        with (pre ++ [Event "Error" e] ++ post).
      rewrite deliver_app, Hd1. cbn [mbind option_bind].
      rewrite deliver_app, Hd2. exact Hd3.
    + by rewrite Hkeep.
    + rewrite Hkeep, Hrej. congruence.
Qed.

End Pending.

Lemma js_join_LF_spec chunks : js_join LF chunks = spec_join_lines chunks.
Proof.
  induction chunks as [|c [|c' r] IH]; [done..|].
  change (js_join LF (c :: c' :: r)) with (c +:+ LF +:+ js_join LF (c' :: r)).
  rewrite IH. reflexivity.
Qed.

Lemma split_lines_no_newline c : no_newline c → split_lines c = [c].
Proof.
  unfold no_newline. induction c as [|ch r IH]; [done|].
  simpl. intros [Hch Hr]%Forall_cons.
  rewrite decide_False by done. by rewrite IH.
Qed.

Lemma split_lines_line c s :
  no_newline c → split_lines (c +:+ String "010"%char s) = c :: split_lines s.
Proof.
  unfold no_newline. induction c as [|ch r IH]; [done|].
  simpl. intros [Hch Hr]%Forall_cons.
  rewrite decide_False by done. by rewrite IH.
Qed.

Lemma split_lines_spec_join chunks :
  chunks ≠ [] → Forall no_newline chunks →
  split_lines (spec_join_lines chunks) = chunks.
Proof.
  induction chunks as [|c [|c' r] IH]; intros Hne Hcs; [done| |].
  - apply Forall_cons in Hcs as [Hc _]. by apply split_lines_no_newline.
  - apply Forall_cons in Hcs as [Hc Hcs].
    change (spec_join_lines (c :: c' :: r))
      with (c +:+ String "010"%char (spec_join_lines (c' :: r))).
    rewrite split_lines_line by done. by rewrite IH.
Qed.

(** C3. Text mode: [Stdout] chunks then [Terminated{code, signal}] resolve
    the promise of [execute()] with an empty stderr and with the chunks
    joined by a single newline character, none at the end: the stdout is
    [spec_join_lines chunks], and when the chunks hold no newline of their
    own, cutting it at its newlines gives back exactly the chunks. *)
Theorem execute_text_joins_stdout k prog av o st chunks c s :
  encoding (cmd_options (new_Command prog av o st)) ≠ Some "raw" →
  (∃ w, deliver code (S (S k))
          ((stdout_event <$> (PText <$> chunks)) ++ [terminated c s])
          (execute (new_Command prog av o st)).1 = Some w ∧
        promises w !! (execute (new_Command prog av o st)).2
        = Some (Resolved (Output (field_of c) (field_of s)
                            (OText (spec_join_lines chunks)) (OText "")))) ∧
  (chunks ≠ [] → Forall no_newline chunks →
   split_lines (spec_join_lines chunks) = chunks).
Proof.
  intros Htext. split; [|apply split_lines_spec_join].
  rewrite <- js_join_LF_spec.
  apply (session_text_stdout 0 0 1);
    [apply executing_execute|reflexivity..|lia|exact Htext].
Qed.

(** C4. Raw mode: byte-array [Stdout] chunks then [Terminated] resolve the
    promise with the chunks concatenated, a line feed (10) after each. *)
Theorem execute_raw_appends_line_feeds k prog av o st chunks c s :
  encoding (cmd_options (new_Command prog av o st)) = Some "raw" →
  Forall (Forall is_byte) chunks →
  ∃ w, deliver code (S (S k))
         ((stdout_event <$> (PBytes <$> chunks)) ++ [terminated c s])
         (execute (new_Command prog av o st)).1 = Some w ∧
       promises w !! (execute (new_Command prog av o st)).2
       = Some (Resolved (Output (field_of c) (field_of s)
                           (OBytes (concat ((λ ch, ch ++ [10%Z]) <$> chunks)))
                           (OBytes []))).
Proof.
  intros Hraw Hbytes.
  apply (session_raw_stdout 0 0 1);
    [apply executing_execute|reflexivity..|lia|exact Hraw|exact Hbytes].
Qed.

(** C5. When [Error] arrives before any terminal event, the promise of
    [execute()] is rejected with its payload as soon as that event is
    handled, and stays so whatever follows: no value, hence no buffered
    chunk, is ever resolved. *)
Theorem execute_rejects_on_error k prog av o st pre e post :
  Forall (λ ev, terminal_tag (ev_tag ev) = false) pre →
  (∃ w, deliver code (S (S k)) (pre ++ [Event "Error" e])
          (execute (new_Command prog av o st)).1 = Some w ∧
        promises w !! (execute (new_Command prog av o st)).2 = Some (Rejected e)) ∧
  (∃ w, deliver code (S (S k)) (pre ++ Event "Error" e :: post)
          (execute (new_Command prog av o st)).1 = Some w ∧
        promises w !! (execute (new_Command prog av o st)).2 = Some (Rejected e) ∧
        ∀ out, promises w !! (execute (new_Command prog av o st)).2
               ≠ Some (Resolved out)).
Proof.
  intros Hpre.
  apply (session_error 0 0 1); [apply executing_execute|reflexivity|exact Hpre].
Qed.

(** C6, as the code has it. An event whose tag is none of [Stdout],
    [Stderr], [Error], [Terminated] is dropped: the callback returns
    normally and the state is what it was, so nothing surfaces. *)
Theorem unknown_tag_is_ignored fuel ev w :
  known_tag (ev_tag ev) = false →
  on_event code fuel ev w = Ret w () ∧ ¬ surfaced w (on_event code fuel ev w).
Proof.
  intros H. rewrite on_event_unknown by done. split; [done|].
  simpl. intros [Hc | Hp]; [by apply Hc|by apply Hp].
Qed.

(** ** The request sent by [execute] *)

Lemma length_store_mutate l g w : length (store (mutate l g w)) = length (store w).
Proof. unfold mutate. simpl. apply length_alter. Qed.

Lemma mutate_frozen l' g w l xs :
  store w !! l = Some (true, xs) → store (mutate l' g w) !! l = Some (true, xs).
Proof.
  intros H. unfold mutate. simpl. destruct (decide (l' = l)) as [->|Hne].
  - by rewrite list_lookup_alter_eq, H.
  - by rewrite list_lookup_alter_ne.
Qed.

Lemma apply_mutations_frozen ms : ∀ w l xs,
  store w !! l = Some (true, xs) →
  store (apply_mutations ms w) !! l = Some (true, xs).
Proof.
  induction ms as [|[l' g] ms IH]; intros w l xs H; [done|].
  apply IH. by apply mutate_frozen.
Qed.

Lemma apply_mutations_length ms : ∀ w,
  length (store (apply_mutations ms w)) = length (store w).
Proof.
  induction ms as [|[l' g] ms IH]; intros w; [done|].
  unfold apply_mutations in *. simpl. by rewrite IH, length_store_mutate.
Qed.

(** An array that is frozen (or absent) reads the same whatever the caller
    tries afterwards. *)
Lemma frozen_reads_same ms l w :
  (∀ fz xs, store w !! l = Some (fz, xs) → fz = true) →
  snd <$> store (apply_mutations ms w) !! l = snd <$> store w !! l.
Proof.
  intros Hfz. destruct (store w !! l) as [[fz xs]|] eqn:Hl.
  - rewrite (Hfz fz xs eq_refl) in Hl.
    by rewrite (apply_mutations_frozen ms _ _ _ Hl).
  - apply lookup_ge_None_1 in Hl. rewrite lookup_ge_None_2; [done|].
    by rewrite apply_mutations_length.
Qed.

(** C7. [execute] sends the array it was given, frozen: the request is
    appended to what was sent, and no later attempt of the caller to change
    any array changes the argument sequence the request denotes. *)
Theorem args_frozen_at_send cb prog a o w ms :
  ∃ r, sent (execute_fn cb prog a o w) = sent w ++ [r] ∧
       rq_program r = prog ∧ rq_options r = o ∧ rq_onEventFn r = cb ∧
       request_args (execute_fn cb prog a o w) r
       = match a with
         | ARef l => snd <$> store w !! l
         | AStr s => Some [s]
         | AUndefined => Some []
         end ∧
       request_args (apply_mutations ms (execute_fn cb prog a o w)) r
       = request_args (execute_fn cb prog a o w) r.
Proof.
  destruct a as [|s|l]; simpl; eexists; (split; [reflexivity|]); repeat split.
  - unfold request_args. simpl. by rewrite lookup_app_r, Nat.sub_diag by lia.
  - unfold request_args. simpl.
    rewrite (apply_mutations_frozen ms _ _ []); [|];
      simpl; by rewrite lookup_app_r, Nat.sub_diag by lia.
  - unfold request_args. simpl. rewrite list_lookup_alter_eq.
    by destruct (store w !! l) as [[]|].
  - unfold request_args. simpl.
    rewrite frozen_reads_same; [done|]. simpl. intros fz xs.
    rewrite list_lookup_alter_eq. destruct (store w !! l) as [[]|]; simpl; congruence.
Qed.

End Facts.

(** C9. [spawn()] issues the request for this command; its promise is
    fulfilled with a [Child] holding the acknowledged process id; each
    event delivered to the callback is an [emit] of its payload on the
    matching emitter and event name, so that of four recording listeners,
    one per stream, exactly the matching one runs. *)
Theorem spawn_routes_events code fuel k pl ack prog av o st w :
  sent (spawn w)
  = sent w ++ [Request (program w) (ARef (args w)) (cmd_options w) (length (sent w))] ∧
  spawn_result (Ack ack) = Fulfilled (mkChild ack) ∧ pid (mkChild ack) = ack ∧
  on_event code fuel (Event "Stdout" pl) w
  = rmap (λ _, ()) (emit code fuel EStdout "data" pl w) ∧
  on_event code fuel (Event "Stderr" pl) w
  = rmap (λ _, ()) (emit code fuel EStderr "data" pl w) ∧
  on_event code fuel (Event "Error" pl) w
  = rmap (λ _, ()) (emit code fuel ESelf "error" pl w) ∧
  on_event code fuel (Event "Terminated" pl) w
  = rmap (λ _, ()) (emit code fuel ESelf "close" pl w) ∧
  on_event quiet (S (S (S k))) (Event "Error" pl) (observed prog av o st)
  = Ret (log_call 0 pl (observed prog av o st)) () ∧
  on_event quiet (S (S (S k))) (Event "Terminated" pl) (observed prog av o st)
  = Ret (log_call 1 pl (observed prog av o st)) () ∧
  on_event quiet (S (S (S k))) (Event "Stdout" pl) (observed prog av o st)
  = Ret (log_call 2 pl (observed prog av o st)) () ∧
  on_event quiet (S (S (S k))) (Event "Stderr" pl) (observed prog av o st)
  = Ret (log_call 3 pl (observed prog av o st)) ().
Proof.
  split; [done|]. split; [done|]. split; [done|].
  split; [done|]. split; [done|]. split; [done|]. split; [done|].
  assert (∀ e n i, listeners e n (observed prog av o st) = Some [FUser i] →
                   emit quiet (S (S (S k))) e n pl (observed prog av o st)
                   = Ret (log_call i pl (observed prog av o st)) true) as Hemit.
  { intros e n i H. by apply (emit_single quiet _ _ _ _ _ _ _ H). }
  unfold on_event. simpl.
  by rewrite (Hemit ESelf "error" 0), (Hemit ESelf "close" 1),
    (Hemit EStdout "data" 2), (Hemit EStderr "data" 3).
Qed.

(** Witness for C8: [on], [on] again with the same function, [once], [off]. *)
Lemma listenerCount_counts_entries_witness :
  ∃ w, run quiet 5 [On ESelf "data" (FUser 0); On ESelf "data" (FUser 0);
                    Once ESelf "data" (FUser 1); Off ESelf "data" (FUser 1)] fresh
       = Ret w () ∧ listenerCount ESelf "data" w = 3.
Proof.
  destruct (listenerCount_counts_entries quiet
              [On ESelf "data" (FUser 0); On ESelf "data" (FUser 0);
               Once ESelf "data" (FUser 1); Off ESelf "data" (FUser 1)]
              0 "node" AUndefined None [] ESelf "data" (FUser 0) eq_refl)
    as (w & Hrun & Hcount & _).
  exists w. split; [exact Hrun|exact Hcount].
Defined.

(** ** Concrete runs *)

(** C2. Evaluation at the failing input: [A] is registered first and, when
    called, deregisters itself and emits ["e"] again; [fn] (function 1) is
    registered with [once].  The inner [emit] runs the wrapper, which
    deregisters itself and calls [fn]; the outer [emit] still iterates the
    array it started with, reaches the wrapper and calls [fn] again. *)
Theorem once_listener_called_twice_on_reentry :
  ∃ w', emit reentrant 10 ESelf "e" (PText "outer")
          (once ESelf "e" (FUser 1) (on ESelf "e" (FUser 0) fresh)) = Ret w' true ∧
        calls w' = [(0, PText "outer"); (1, PText "inner"); (1, PText "outer")] ∧
        times_called 1 (calls w') = 2 ∧
        listenerCount ESelf "e" w' = 0.
Proof. eexists. split; [vm_compute; reflexivity|]. repeat split. Qed.

(** Without re-entry the same registrations call [fn] once. *)
Example once_listener_called_once_without_reentry :
  ∃ w', emit quiet 10 ESelf "e" (PText "outer")
          (once ESelf "e" (FUser 1) (on ESelf "e" (FUser 0) fresh)) = Ret w' true ∧
        calls w' = [(0, PText "outer"); (1, PText "outer")].
Proof. eexists. split; [vm_compute; reflexivity|]. reflexivity. Qed.

(** Witness for C3: chunks ["a"; "b"], then [Terminated{code: 0, signal: null}]
    resolve to [{code: 0, signal: null, stdout: "a\nb", stderr: ""}]. *)
Lemma execute_text_joins_stdout_witness :
  (∃ w, deliver quiet 2
          ((stdout_event <$> (PText <$> ["a"; "b"])) ++ [terminated (Some 0%Z) None])
          (execute (new_Command "echo" AUndefined None [])).1 = Some w ∧
        promises w !! (execute (new_Command "echo" AUndefined None [])).2
        = Some (Resolved (Output (JNum 0) JNull
                            (OText (String "a"%char (String "010"%char (String "b"%char ""))))
                            (OText "")))) ∧
  split_lines (String "a"%char (String "010"%char (String "b"%char ""))) = ["a"; "b"].
Proof.
  destruct (execute_text_joins_stdout quiet 0 "echo" AUndefined None []
              ["a"; "b"] (Some 0%Z) None) as [Hrun Hsplit].
  - simpl. discriminate.
  - split; [exact Hrun|].
    apply Hsplit; [discriminate|].
    repeat constructor; discriminate.
Defined.

(** Witness for C4: chunks [[1,2]; [3]] in raw mode give [1,2,10,3,10]. *)
Lemma execute_raw_appends_line_feeds_witness :
  ∃ w, deliver quiet 2
         ((stdout_event <$> (PBytes <$> [[1; 2]; [3]]%Z)) ++ [terminated (Some 0%Z) None])
         (execute (new_Command "cat" AUndefined (Some (Options (Some "raw") false)) [])).1
       = Some w ∧
       promises w !! (execute (new_Command "cat" AUndefined
                                 (Some (Options (Some "raw") false)) [])).2
       = Some (Resolved (Output (JNum 0) JNull (OBytes [1; 2; 10; 3; 10]%Z) (OBytes []))).
Proof.
  apply (execute_raw_appends_line_feeds quiet 0 "cat" AUndefined
           (Some (Options (Some "raw") false)) [] [[1; 2]; [3]]%Z (Some 0%Z) None).
  - reflexivity.
  - repeat constructor; unfold is_byte; lia.
Defined.

(** Witness for C5: a chunk, an unknown event, then [Error], then a late
    [Terminated]. *)
Lemma execute_rejects_on_error_witness :
  (∃ w, deliver quiet 2
          ([stdout_event (PText "partial"); Event "Progress" (PText "50%")]
             ++ [Event "Error" (PText "spawn failed")])
          (execute (new_Command "echo" AUndefined None [])).1 = Some w ∧
        promises w !! (execute (new_Command "echo" AUndefined None [])).2
        = Some (Rejected (PText "spawn failed"))) ∧
  (∃ w, deliver quiet 2
          ([stdout_event (PText "partial"); Event "Progress" (PText "50%")]
             ++ Event "Error" (PText "spawn failed") :: [terminated (Some 0%Z) None])
          (execute (new_Command "echo" AUndefined None [])).1 = Some w ∧
        promises w !! (execute (new_Command "echo" AUndefined None [])).2
        = Some (Rejected (PText "spawn failed")) ∧
        ∀ out, promises w !! (execute (new_Command "echo" AUndefined None [])).2
               ≠ Some (Resolved out)).
Proof.
  apply (execute_rejects_on_error quiet 0 "echo" AUndefined None []
           [stdout_event (PText "partial"); Event "Progress" (PText "50%")]
           (PText "spawn failed") [terminated (Some 0%Z) None]).
  repeat constructor.
Defined.

(** C6 as stated fails: a session running [execute()], with an [error]
    listener of the caller, receives an event tagged ["Exit"]; nothing is
    thrown, no listener runs and the promise stays pending. *)
Lemma unknown_tag_is_swallowed :
  ¬ surfaced (on ESelf "error" (FUser 0) (execute fresh).1)
      (on_event quiet 5 (Event "Exit" (PText "?"))
         (on ESelf "error" (FUser 0) (execute fresh).1)).
Proof. vm_compute. intros [H | H]; by apply H. Qed.

(** Witness for C6 (amended): the same event on the same session. *)
Lemma unknown_tag_is_ignored_witness :
  on_event quiet 5 (Event "Exit" (PText "?"))
    (on ESelf "error" (FUser 0) (execute fresh).1)
  = Ret (on ESelf "error" (FUser 0) (execute fresh).1) () ∧
  ¬ surfaced (on ESelf "error" (FUser 0) (execute fresh).1)
      (on_event quiet 5 (Event "Exit" (PText "?"))
         (on ESelf "error" (FUser 0) (execute fresh).1)).
Proof.
  apply (unknown_tag_is_ignored quiet 5 (Event "Exit" (PText "?"))
           (on ESelf "error" (FUser 0) (execute fresh).1)).
  reflexivity.
Defined.



(** * Further properties of the emitter and of the command *)

(** ** More of the registry: [prependListener], [removeAllListeners] *)

Lemma registry_ok_prependListener e n f w :
  registry_ok w → registry_ok (prependListener e n f w).
Proof.
  intros H. unfold prependListener. destruct (registry w e !! n);
    auto using registry_ok_alter, registry_ok_alloc.
Qed.

Lemma entries_prependListener e n f w e' n' :
  registry_ok w →
  entries e' n' (prependListener e n f w)
  = if decide (e' = e ∧ n' = n) then f :: entries e' n' w else entries e' n' w.
Proof.
  intros H. unfold prependListener. destruct (registry w e !! n) as [l|] eqn:Hl.
  - by apply (entries_alter e n l (λ a, f :: a)).
  - rewrite entries_alloc by done. case_decide as Hd; [|done].
    destruct Hd as [-> ->]. unfold entries, listeners. by rewrite Hl.
Qed.

Lemma wrappers_prependListener e n f w :
  wrappers (prependListener e n f w) = wrappers w.
Proof. unfold prependListener. by destruct (registry w e !! n). Qed.

Lemma calls_prependListener e n f w : calls (prependListener e n f w) = calls w.
Proof. unfold prependListener. by destruct (registry w e !! n). Qed.

Lemma registry_ok_prependOnceListener e n f w :
  registry_ok w → registry_ok (prependOnceListener e n f w).
Proof. intros H. by apply registry_ok_prependListener, registry_ok_set_wrappers. Qed.

Lemma entries_prependOnceListener e n f w e' n' :
  registry_ok w →
  entries e' n' (prependOnceListener e n f w)
  = if decide (e' = e ∧ n' = n) then FWrap (length (wrappers w)) :: entries e' n' w
    else entries e' n' w.
Proof.
  intros H. unfold prependOnceListener.
  by rewrite entries_prependListener, entries_set_wrappers
    by by apply registry_ok_set_wrappers.
Qed.

Lemma registry_ok_set_listeners_empty e w :
  registry_ok w → registry_ok (set_listeners e ∅ w).
Proof.
  intros [Hwf Hinj]. split.
  - intros e1 n1 l. simpl. case_decide; [by rewrite lookup_empty|apply Hwf].
  - intros e1 n1 e2 n2 l. simpl.
    repeat case_decide; rewrite ?lookup_empty; try done. apply Hinj.
Qed.

Lemma registry_ok_set_listeners_delete e n w :
  registry_ok w → registry_ok (set_listeners e (delete n (registry w e)) w).
Proof.
  intros [Hwf Hinj]. split.
  - intros e1 n1 l. simpl. case_decide; [subst|apply Hwf].
    intros [_ H]%lookup_delete_Some. by eapply Hwf.
  - intros e1 n1 e2 n2 l. simpl.
    repeat case_decide; subst;
      repeat (intros [_ ?]%lookup_delete_Some || intros ?); by eapply Hinj.
Qed.

Lemma registry_ok_removeAllListeners e ev w :
  registry_ok w → registry_ok (removeAllListeners e ev w).
Proof.
  intros H. unfold removeAllListeners. destruct ev as [n|];
    [case_decide|]; auto using registry_ok_set_listeners_empty,
                      registry_ok_set_listeners_delete.
Qed.

(** X5. A registration call on [(e, n)] leaves the listeners of every other
    event name, and of every other emitter, as they were. *)
Theorem registration_leaves_other_events e n f w e' n' :
  registry_ok w → ¬ (e' = e ∧ n' = n) →
  entries e' n' (on e n f w) = entries e' n' w ∧
  entries e' n' (once e n f w) = entries e' n' w ∧
  entries e' n' (off e n f w) = entries e' n' w ∧
  entries e' n' (prependListener e n f w) = entries e' n' w ∧
  entries e' n' (prependOnceListener e n f w) = entries e' n' w.
Proof.
  intros Hok Hne.
  rewrite entries_on, entries_once, entries_off, entries_prependListener,
    entries_prependOnceListener by done.
  by rewrite !decide_False by done.
Qed.

(** X3. [removeAllListeners(n)] for a non-empty name deletes the key: the
    count for [n] is 0, the other events keep their listeners, and, unlike
    after [off], a following [emit(n)] returns [false]. *)
Theorem removeAllListeners_named code fuel e n a w :
  n ≠ "" →
  listenerCount e n (removeAllListeners e (Some n) w) = 0 ∧
  emit code fuel e n a (removeAllListeners e (Some n) w)
  = Ret (removeAllListeners e (Some n) w) false ∧
  ∀ e' n', ¬ (e' = e ∧ n' = n) →
           entries e' n' (removeAllListeners e (Some n) w) = entries e' n' w.
Proof.
  intros Hn. unfold removeAllListeners. rewrite decide_False by done.
  assert (registry (set_listeners e (delete n (registry w e)) w) e !! n = None) as Hl.
  { simpl. rewrite decide_True by done. apply lookup_delete_eq. }
  split; [|split].
  - unfold listenerCount. by rewrite Hl.
  - unfold emit. by rewrite Hl.
  - intros e' n' Hne. unfold entries, listeners. simpl.
    case_decide; [subst|done]. rewrite lookup_delete_ne; [done|]. naive_solver.
Qed.

(** X4. [removeAllListeners()] and, because the test is [if (event)], also
    [removeAllListeners("")] replace the whole table of the emitter: every
    event name loses its listeners, [emit] returns [false] for each, and
    the other emitters are untouched. *)
Theorem removeAllListeners_all code fuel e ev n a w :
  ev = None ∨ ev = Some "" →
  listenerCount e n (removeAllListeners e ev w) = 0 ∧
  emit code fuel e n a (removeAllListeners e ev w)
  = Ret (removeAllListeners e ev w) false ∧
  ∀ e' n', e' ≠ e → entries e' n' (removeAllListeners e ev w) = entries e' n' w.
Proof.
  intros Hev.
  assert (removeAllListeners e ev w = set_listeners e ∅ w) as ->.
  { by destruct Hev as [-> | ->]. }
  assert (registry (set_listeners e ∅ w) e !! n = None) as Hl.
  { simpl. rewrite decide_True by done. apply lookup_empty. }
  split; [|split].
  - unfold listenerCount. by rewrite Hl.
  - unfold emit. by rewrite Hl.
  - intros e' n' Hne. unfold entries, listeners. simpl. by rewrite decide_False.
Qed.

(** ** The registry stays well-formed whatever the listeners do *)

Lemma registry_ok_settle p s w : registry_ok w → registry_ok (settle p s w).
Proof. unfold settle. by destruct (promises w !! p) as [[]|]. Qed.

Section Invariant.

Variable code : nat → list call.

Lemma exec_registry_ok fuel : ∀ t w,
  registry_ok w →
  match exec code fuel t w with
  | Ret w' _ | Threw w' => registry_ok w'
  | OutOfFuel => True
  end.
Proof.
  induction fuel as [|k IH]; intros t w Hok; [done|].
  destruct t as [f a|l i a|cs].
  - destruct f as [i|j|p|b|p bo be]; simpl.
    + by apply IH.
    + destruct (wrappers w !! j) as [[[e n] g]|]; [|done].
      by apply IH, registry_ok_off.
    + by apply registry_ok_settle.
    + done.
    + destruct (collectOutput _ _); [|done].
      destruct (collectOutput _ _); [|done]. by apply registry_ok_settle.
  - simpl. destruct (heap w !! l ≫= _) as [f|]; [|done].
    pose proof (IH (TCall f a) w Hok) as H1.
    destruct (exec code k (TCall f a) w) as [|w1|w1 []]; simpl; try done.
    by apply IH.
  - destruct cs as [|c cs]; [done|]. simpl.
    assert (∀ w1, registry_ok w1 →
              match rbind (Ret w1 ()) (λ w' _, exec code k (TBody cs) w') with
              | Ret w' _ | Threw w' => registry_ok w'
              | OutOfFuel => True
              end) as Hstep by (intros w1 H1; by apply IH).
    destruct c as [e n f|e n f|e n f|e n f|e n f|e n|e n a].
    + by apply Hstep, registry_ok_on.
    + by apply Hstep, registry_ok_once.
    + by apply Hstep, registry_ok_off.
    + by apply Hstep, registry_ok_prependListener.
    + by apply Hstep, registry_ok_prependOnceListener.
    + by apply Hstep, registry_ok_removeAllListeners.
    + destruct (registry w e !! n) as [l|]; [|by apply Hstep].
      pose proof (IH (TIter l 0 a) w Hok) as H1.
      destruct (exec code k (TIter l 0 a) w) as [|w1|w1 []]; simpl; try done.
      by apply IH.
Qed.

(** X10. Whatever the caller's functions do (register, remove, clear,
    emit again), when [emit], a script of calls, or the delivery of events
    comes back, normally or by an exception, every key of every emitter
    still holds an array of its own. *)
Theorem listeners_stay_well_formed fuel :
  (∀ e n a w, registry_ok w →
     match emit code fuel e n a w with
     | Ret w' _ | Threw w' => registry_ok w'
     | OutOfFuel => True
     end) ∧
  (∀ cs w, registry_ok w →
     match run code fuel cs w with
     | Ret w' _ | Threw w' => registry_ok w'
     | OutOfFuel => True
     end) ∧
  (∀ evs w w', registry_ok w → deliver code fuel evs w = Some w' → registry_ok w').
Proof.
  assert (∀ e n a w, registry_ok w →
     match emit code fuel e n a w with
     | Ret w' _ | Threw w' => registry_ok w'
     | OutOfFuel => True
     end) as Hemit.
  { intros e n a w Hok. unfold emit. destruct (registry w e !! n) as [l|]; [|done].
    pose proof (exec_registry_ok fuel (TIter l 0 a) w Hok) as H.
    by destruct (exec code fuel (TIter l 0 a) w). }
  split; [exact Hemit|]. split.
  - intros cs w Hok. by apply exec_registry_ok.
  - assert (∀ ev w, registry_ok w →
       match on_event code fuel ev w with
       | Ret w' _ | Threw w' => registry_ok w'
       | OutOfFuel => True
       end) as Hev.
    { intros ev w Hok. unfold on_event.
      repeat (destruct (String.eqb _ _);
              [match goal with
               | |- context [emit code fuel ?e ?n ?a w] =>
                   pose proof (Hemit e n a w Hok) as H;
                   by destruct (emit code fuel e n a w)
               end|]).
      done. }
    induction evs as [|ev evs IH]; intros w w' Hok Hd; simpl in Hd; [by simplify_eq|].
    pose proof (Hev ev w Hok) as H.
    destruct (on_event code fuel ev w); [done|by eapply IH..].
Qed.

End Invariant.

(** ** Running listeners: order, and registrations made while [emit] runs *)

Lemma entries_heap e n w l :
  registry_ok w → registry w e !! n = Some l → heap w !! l = Some (entries e n w).
Proof.
  intros [Hwf _] Hl. unfold entries, listeners. rewrite Hl. simpl.
  destruct (lookup_lt_is_Some_2 (heap w) l (Hwf _ _ _ Hl)) as [a Ha].
  by rewrite Ha.
Qed.

Lemma off_set_calls e n g c w :
  off e n g (set_calls c w) = set_calls c (off e n g w).
Proof. unfold off. simpl. by destruct (registry w e !! n). Qed.

Lemma set_calls_set_calls c c' w : set_calls c (set_calls c' w) = set_calls c w.
Proof. reflexivity. Qed.

Lemma heap_off_lookup e n g w l arr :
  heap w !! l = Some arr → heap (off e n g w) !! l = Some arr.
Proof.
  intros H. unfold off. destruct (registry w e !! n); [|done].
  simpl. by apply lookup_app_l_Some.
Qed.

Lemma length_logged_plain code a fs :
  Forall (plain code) fs → length (logged a fs) = length fs.
Proof.
  unfold logged. induction 1 as [|f fs (i & -> & _) _ IH]; [done|].
  simpl. by f_equal.
Qed.

Lemma filter_plain_keeps code j fs :
  Forall (plain code) fs → filter (λ g, g ≠ FWrap j) fs = fs.
Proof.
  intros H. apply filter_keeps_all. eapply Forall_impl; [exact H|].
  by intros f (i & -> & _).
Qed.

Section Coverage.

Variable code : nat → list call.

Arguments exec : simpl never.

Lemma exec_call_user k i a w :
  exec code (S k) (TCall (FUser i) a) w = exec code k (TBody (code i)) (log_call i a w).
Proof. reflexivity. Qed.

Lemma exec_body_nil k w : exec code (S k) (TBody []) w = Ret w ().
Proof. reflexivity. Qed.

Lemma exec_body_on k e n f cs w :
  exec code (S k) (TBody (On e n f :: cs)) w = exec code k (TBody cs) (on e n f w).
Proof. reflexivity. Qed.


(** All listeners of the array are plain: the loop calls each once, in
    array order, and ends. *)
Lemma emit_plain_run k e n a w :
  registry_ok w → is_Some (registry w e !! n) →
  Forall (plain code) (entries e n w) →
  emit code (length (entries e n w) + S (S k)) e n a w
  = Ret (set_calls (calls w ++ logged a (entries e n w)) w) true.
Proof.
  intros Hok [l Hl] Hplain. unfold emit. rewrite Hl.
  pose proof (entries_heap e n w l Hok Hl) as Hh.
  pose proof (exec_iter_plain code a l [] k (entries e n w) [] w) as Hrun.
  simpl in Hrun. rewrite Hrun by (by rewrite ?app_nil_r).
  rewrite exec_iter_done; [done|].
  simpl. rewrite Hh. simpl. by apply lookup_ge_None_2.
Qed.

(** One listener [f] among plain ones, whose call records caller function
    [i] and performs [off(n', g)] on [e'] (a [once] wrapper, or a caller
    function doing just that): everything in the array that [emit] started
    with is called, and the [off] shows in the final state only. *)
Lemma emit_around_off k e n a w l ps1 f ps2 i e' n' g :
  heap w !! l = Some (ps1 ++ f :: ps2) → registry w e !! n = Some l →
  Forall (plain code) ps1 → Forall (plain code) ps2 →
  (∀ k' w1, wrappers w1 = wrappers w →
            exec code (S (S (S k'))) (TCall f a) w1
            = Ret (set_calls (calls w1 ++ [(i, a)]) (off e' n' g w1)) ()) →
  emit code (length ps1 + S (S (length ps2 + S (S k)))) e n a w
  = Ret (set_calls (calls w ++ logged a ps1 ++ (i, a) :: logged a ps2)
           (off e' n' g w)) true.
Proof.
  intros Hh Hl Hp1 Hp2 Hcall. unfold emit. rewrite Hl.
  pose proof (exec_iter_plain code a l (f :: ps2) (length ps2 + S (S k)) ps1 [] w)
    as Hrun.
  simpl in Hrun. rewrite Hrun by done. clear Hrun.
  set (w1 := set_calls (calls w ++ logged a ps1) w).
  rewrite (exec_iter_step code _ _ _ _ _ f).
  2:{ simpl. rewrite Hh. simpl. by rewrite lookup_app_r, Nat.sub_diag by lia. }
  rewrite !Nat.add_succ_r, Hcall by done. cbn [rbind].
  set (w2 := set_calls (calls w1 ++ [(i, a)]) (off e' n' g w1)).
  assert (heap w2 !! l = Some ((ps1 ++ [f]) ++ ps2 ++ [])) as Hh2.
  { rewrite app_nil_r, <- app_assoc. simpl.
    unfold w2. simpl. by apply heap_off_lookup. }
  pose proof (exec_iter_plain code a l [] (S k) ps2 (ps1 ++ [f]) w2 Hh2 Hp2) as Hrun.
  rewrite length_app, !Nat.add_succ_r in Hrun. simpl in Hrun.
  rewrite !Nat.add_1_r in Hrun. rewrite Hrun. clear Hrun.
  rewrite exec_iter_done.
  2:{ replace (heap _ !! l) with (Some ((ps1 ++ [f]) ++ ps2 ++ []))
        by (symmetry; exact Hh2).
      simpl. apply lookup_ge_None_2. rewrite !length_app. simpl. lia. }
  cbn [rmap rbind]. f_equal. unfold w2, w1. rewrite off_set_calls.
  rewrite !set_calls_set_calls. f_equal. simpl. by rewrite <- !app_assoc.
Qed.

(** What a [once] wrapper does when called. *)
Lemma exec_call_once_wrapper k j a w e n i :
  wrappers w !! j = Some (e, n, FUser i) → code i = [] →
  exec code (S (S (S k))) (TCall (FWrap j) a) w
  = Ret (set_calls (calls w ++ [(i, a)]) (off e n (FWrap j) w)) ().
Proof.
  intros Hw Hi. rewrite (exec_call_wrapper code _ _ _ _ e n (FUser i)) by done.
  rewrite exec_call_plain by done. unfold removeListener, log_call.
  by rewrite calls_off.
Qed.

Lemma plain_users ids :
  Forall (λ i, code i = []) ids → Forall (plain code) (FUser <$> ids).
Proof.
  induction 1 as [|i ids Hi _ IH]; [constructor|].
  rewrite fmap_cons. constructor; [by exists i|done].
Qed.

Lemma logged_users a ids : logged a (FUser <$> ids) = (λ i, (i, a)) <$> ids.
Proof.
  unfold logged. f_equal. induction ids as [|i ids IH]; [done|].
  rewrite fmap_cons. simpl. by f_equal.
Qed.

(** X1. When the listeners registered for [n] are the plain functions
    [ids], [emit(n, a)] calls each of them exactly once with [a], in
    registration order, and changes nothing but the call log; it returns
    [true] exactly when [n] has a key, which is the case whenever a
    listener is registered, and [false] with nothing called otherwise. *)
Theorem emit_calls_listeners_in_order k e n a w ids :
  registry_ok w → entries e n w = FUser <$> ids → Forall (λ i, code i = []) ids →
  emit code (length ids + S (S k)) e n a w
  = Ret (set_calls (calls w ++ ((λ i, (i, a)) <$> ids)) w)
        (bool_decide (is_Some (registry w e !! n))) ∧
  listenerCount e n w = length ids ∧
  (ids ≠ [] → is_Some (registry w e !! n)).
Proof.
  intros Hok Hent Hids.
  assert (listenerCount e n w = length ids) as Hcount
    by by rewrite listenerCount_entries, Hent, length_fmap.
  destruct (registry w e !! n) as [l|] eqn:Hl.
  - split; [|split; [done|eauto]].
    rewrite bool_decide_eq_true_2 by eauto.
    pose proof (emit_plain_run k e n a w Hok) as Hrun.
    rewrite Hl, Hent, length_fmap, logged_users in Hrun.
    apply Hrun; [eauto|by apply plain_users].
  - assert (ids = []) as ->.
    { apply (fmap_nil_inv FUser). rewrite <- Hent.
      unfold entries, listeners. by rewrite Hl. }
    split; [|split; [done|done]].
    unfold emit. rewrite Hl. rewrite bool_decide_eq_false_2 by (by intros [? ?]).
    simpl. rewrite app_nil_r. by destruct w.
Qed.

(** X2. [prependListener(n, f)] puts [f] in front of the listeners of [n]:
    the count grows by one and, with plain listeners, the next [emit] calls
    [f] first and then the others in their order. *)
Theorem prependListener_is_called_first k e n i a w :
  registry_ok w → code i = [] → Forall (plain code) (entries e n w) →
  entries e n (prependListener e n (FUser i) w) = FUser i :: entries e n w ∧
  listenerCount e n (prependListener e n (FUser i) w) = S (listenerCount e n w) ∧
  emit code (S (length (entries e n w)) + S (S k)) e n a
    (prependListener e n (FUser i) w)
  = Ret (set_calls (calls w ++ (i, a) :: logged a (entries e n w))
           (prependListener e n (FUser i) w)) true.
Proof.
  intros Hok Hi Hplain.
  assert (registry_ok (prependListener e n (FUser i) w)) as Hok'
    by by apply registry_ok_prependListener.
  assert (entries e n (prependListener e n (FUser i) w) = FUser i :: entries e n w)
    as Hent by by rewrite entries_prependListener, decide_True.
  split; [done|]. split.
  { by rewrite !listenerCount_entries, Hent. }
  pose proof (emit_plain_run k e n a (prependListener e n (FUser i) w) Hok') as Hrun.
  rewrite Hent in Hrun. simpl length in Hrun. rewrite Hrun.
  - f_equal. f_equal. unfold prependListener.
    by destruct (registry w e !! n).
  - unfold prependListener. destruct (registry w e !! n) eqn:Hl; simpl.
    + by rewrite Hl.
    + rewrite decide_True by done. rewrite lookup_insert_eq. eauto.
  - constructor; [by exists i|done].
Qed.

(** X6. The listeners registered for [n] are plain except one, which when
    called registers a further plain listener for [n] with [on]: the array
    [emit] iterates is the one [on] pushes to, so [emit(n, a)] calls the
    registered listeners in order and then, in the same [emit], the new
    one, which stays registered. *)
Theorem listener_added_during_emit_is_called k e n a w ps1 ps2 i j :
  registry_ok w → entries e n w = ps1 ++ FUser i :: ps2 →
  Forall (plain code) ps1 → Forall (plain code) ps2 →
  code i = [On e n (FUser j)] → code j = [] →
  ∃ w', emit code (length ps1 + S (S (length ps2 + S (S (S k))))) e n a w
        = Ret w' true ∧
        calls w' = calls w ++ logged a ps1 ++ (i, a) :: logged a ps2 ++ [(j, a)] ∧
        entries e n w' = ps1 ++ FUser i :: ps2 ++ [FUser j] ∧
        registry_ok w'.
Proof.
  intros Hok Hent Hp1 Hp2 Hi Hj.
  assert (is_Some (registry w e !! n)) as [l Hl].
  { unfold entries, listeners in Hent.
    destruct (registry w e !! n); [eauto|]. by destruct ps1. }
  pose proof (entries_heap e n w l Hok Hl) as Hh. rewrite Hent in Hh.
  unfold emit. rewrite Hl.
  pose proof (exec_iter_plain code a l (FUser i :: ps2) (length ps2 + S (S (S k)))
                ps1 [] w Hh Hp1) as Hrun.
  simpl in Hrun. rewrite Hrun. clear Hrun.
  set (w1 := set_calls (calls w ++ logged a ps1) w).
  rewrite (exec_iter_step code _ _ _ _ _ (FUser i)).
  2:{ simpl. rewrite Hh. simpl. by rewrite lookup_app_r, Nat.sub_diag by lia. }
  rewrite exec_call_user, Hi.
  rewrite (Nat.add_succ_r (length ps2)), exec_body_on.
  rewrite (Nat.add_succ_r (length ps2)), exec_body_nil. cbn [rbind].
  set (w2 := on e n (FUser j) (log_call i a w1)).
  assert (registry_ok w2) as Hok2 by by apply registry_ok_on.
  assert (entries e n w2 = (ps1 ++ [FUser i]) ++ (ps2 ++ [FUser j]) ++ []) as Hent2.
  { unfold w2. rewrite entries_on, decide_True by done.
    change (entries e n (log_call i a w1)) with (entries e n w).
    rewrite Hent, app_nil_r, <- !app_assoc. done. }
  assert (registry w2 e !! n = Some l) as Hl2.
  { unfold w2, on. simpl. by rewrite Hl. }
  pose proof (entries_heap e n w2 l Hok2 Hl2) as Hh2. rewrite Hent2 in Hh2.
  assert (Forall (plain code) (ps2 ++ [FUser j])) as Hp2'.
  { apply Forall_app_2; [done|]. constructor; [by exists j|done]. }
  pose proof (exec_iter_plain code a l [] (S k) (ps2 ++ [FUser j]) (ps1 ++ [FUser i])
                w2 Hh2 Hp2') as Hrun.
  rewrite !length_app in Hrun. simpl length in Hrun.
  replace (length ps2 + 1 + S (S (S k))) with (S (S (S (S (length ps2 + k)))))
    in Hrun by lia.
  rewrite Nat.add_1_r in Hrun. rewrite (Nat.add_succ_r (length ps2)), Hrun. clear Hrun.
  rewrite exec_iter_done.
  2:{ simpl. rewrite Hh2. simpl. apply lookup_ge_None_2.
      rewrite !length_app. simpl. lia. }
  eexists. split; [reflexivity|]. split; [|split; [|exact Hok2]].
  - simpl. unfold w2. rewrite calls_on. simpl.
    unfold logged. rewrite omap_app, fmap_app. simpl.
    by rewrite <- !app_assoc.
  - change (entries e n (set_calls _ w2)) with (entries e n w2).
    rewrite Hent2, app_nil_r, <- !app_assoc. done.
Qed.



(** X9. [prependOnceListener]: the wrapper is put in front, so a plain
    listener registered with it is called first by the next [emit], before
    the plain listeners registered earlier, and by no later [emit]. *)
Theorem prependOnceListener_fires_first_once k e n i a b w :
  registry_ok w → code i = [] → Forall (plain code) (entries e n w) →
  ∃ w1 w2,
    emit code (S (S (length (entries e n w) + S (S k)))) e n a
      (prependOnceListener e n (FUser i) w) = Ret w1 true ∧
    calls w1 = calls w ++ (i, a) :: logged a (entries e n w) ∧
    emit code (length (entries e n w) + S (S k)) e n b w1 = Ret w2 true ∧
    calls w2 = calls w1 ++ logged b (entries e n w) ∧
    entries e n w2 = entries e n w.
Proof.
  intros Hok Hi Hplain.
  set (w0 := prependOnceListener e n (FUser i) w).
  assert (registry_ok w0) as Hok0 by by apply registry_ok_prependOnceListener.
  assert (is_Some (registry w0 e !! n)) as [l Hl].
  { unfold w0, prependOnceListener, prependListener. simpl.
    destruct (registry w e !! n) eqn:Hl; simpl; [by rewrite Hl|].
    rewrite decide_True by done. rewrite lookup_insert_eq. eauto. }
  assert (entries e n w0 = FWrap (length (wrappers w)) :: entries e n w) as Hent0.
  { unfold w0. by rewrite entries_prependOnceListener, decide_True. }
  pose proof (entries_heap e n w0 l Hok0 Hl) as Hh. rewrite Hent0 in Hh.
  assert (wrappers w0 !! length (wrappers w) = Some (e, n, FUser i)) as Hwr.
  { unfold w0, prependOnceListener. rewrite wrappers_prependListener. simpl.
    by rewrite lookup_app_r, Nat.sub_diag by lia. }
  pose proof (emit_around_off k e n a w0 l [] (FWrap (length (wrappers w)))
                (entries e n w) i e n (FWrap (length (wrappers w)))
                Hh Hl ltac:(constructor) Hplain) as Hrun.
  simpl in Hrun. rewrite Hrun; clear Hrun.
  2:{ intros k' w1 Hw1. apply exec_call_once_wrapper; [by rewrite Hw1|done]. }
  set (w1 := set_calls _ _).
  assert (registry_ok w1) as Hok1 by by apply registry_ok_off.
  assert (entries e n w1 = entries e n w) as Hent1.
  { change (entries e n w1) with (entries e n (off e n (FWrap (length (wrappers w))) w0)).
    rewrite entries_off, decide_True, Hent0 by done.
    rewrite filter_cons_False by (by intros H; apply H).
    by apply (filter_plain_keeps code). }
  assert (is_Some (registry w1 e !! n)) as Hkey1.
  { change (registry w1) with (registry (off e n (FWrap (length (wrappers w))) w0)).
    rewrite (off_present _ _ _ _ _ Hl). simpl. rewrite decide_True by done.
    rewrite lookup_insert_eq. eauto. }
  pose proof (emit_plain_run k e n b w1 Hok1 Hkey1) as Hrun2.
  rewrite Hent1 in Hrun2. specialize (Hrun2 Hplain).
  exists w1, (set_calls (calls w1 ++ logged b (entries e n w)) w1).
  split; [done|]. split.
  { unfold w1, w0, prependOnceListener. simpl.
    by rewrite calls_prependListener. }
  split; [done|]. split; [done|]. exact Hent1.
Qed.

(** ** Command: both streams, late events, spawn failure *)

Lemma payloads_of_cons_eq t ev evs :
  ev_tag ev = t → payloads_of t (ev :: evs) = ev_payload ev :: payloads_of t evs.
Proof. intros H. unfold payloads_of. by rewrite filter_cons_True. Qed.

Lemma payloads_of_cons_ne t ev evs :
  ev_tag ev ≠ t → payloads_of t (ev :: evs) = payloads_of t evs.
Proof. intros H. unfold payloads_of. by rewrite filter_cons_False. Qed.

Section Streams.

Variables (p bo be : nat).
Hypothesis Hne : bo ≠ be.

(** Events other than [Error] and [Terminated] only fill the two buffers,
    each with the payloads of its own tag, in arrival order. *)
Lemma deliver_data k evs : ∀ w,
  executing p bo be w →
  Forall (λ ev, terminal_tag (ev_tag ev) = false) evs →
  deliver code (S (S k)) evs w
  = Some (set_buffers
            (alter (λ l, l ++ payloads_of "Stdout" evs) bo
               (alter (λ l, l ++ payloads_of "Stderr" evs) be (buffers w))) w).
Proof.
  induction evs as [|[t c] evs IH]; intros w Hex Hevs.
  - simpl. rewrite !list_alter_id by (intros; apply app_nil_r). by destruct w.
  - apply Forall_cons in Hevs as [Ht Hevs]. simpl in Ht.
    apply orb_false_iff in Ht as [Ht1 Ht2].
    cbn [deliver].
    destruct (String.eqb t "Stdout") eqn:E3.
    { apply String.eqb_eq in E3 as ->.
      rewrite (on_event_stdout code p bo be) by done.
      rewrite IH by (done || by apply executing_push).
      rewrite (payloads_of_cons_eq "Stdout"), (payloads_of_cons_ne "Stderr") by done.
      unfold push_buffer, set_buffers. simpl. do 2 f_equal.
      rewrite (list_alter_alter_ne _ _ _ be bo) by done.
      rewrite list_alter_alter_eq. apply list_alter_ext; [|done].
      intros l _. simpl. by rewrite <- app_assoc. }
    destruct (String.eqb t "Stderr") eqn:E4.
    { apply String.eqb_eq in E4 as ->.
      rewrite (on_event_stderr code p bo be) by done.
      rewrite IH by (done || by apply executing_push).
      rewrite (payloads_of_cons_eq "Stderr"), (payloads_of_cons_ne "Stdout") by done.
      unfold push_buffer, set_buffers. simpl. do 3 f_equal.
      rewrite list_alter_alter_eq. apply list_alter_ext; [|done].
      intros l _. simpl. by rewrite <- app_assoc. }
    rewrite on_event_unknown
      by (unfold known_tag; simpl; by rewrite Ht1, Ht2, E3, E4).
    rewrite IH by done.
    apply String.eqb_neq in E3, E4.
    by rewrite !payloads_of_cons_ne by done.
Qed.

Variable w : world.
Hypothesis Hex : executing p bo be w.
Hypothesis Hp : promises w !! p = Some Pending.
Hypothesis Hbo : buffers w !! bo = Some [].
Hypothesis Hbe : buffers w !! be = Some [].

Lemma session_streams k evs pl so se :
  Forall (λ ev, terminal_tag (ev_tag ev) = false) evs →
  collectOutput (cmd_options w) (payloads_of "Stdout" evs) = Some so →
  collectOutput (cmd_options w) (payloads_of "Stderr" evs) = Some se →
  ∃ w', deliver code (S (S k)) (evs ++ [Event "Terminated" pl]) w = Some w' ∧
        executing p bo be w' ∧
        promises w' !! p
        = Some (Resolved (Output (payload_code pl) (payload_signal pl) so se)).
Proof.
  intros Hevs Hso Hse.
  rewrite deliver_app, deliver_data by done.
  cbn [mbind option_bind deliver].
  rewrite (on_event_terminated code p bo be _ _ _ so se);
    [| by apply executing_set_buffers | |].
  - eexists. split; [reflexivity|].
    split; [by apply executing_settle, executing_set_buffers|].
    by apply settle_pending.
  - simpl. rewrite list_lookup_alter_eq, list_lookup_alter_ne, Hbo by done. done.
  - simpl. rewrite list_lookup_alter_ne, list_lookup_alter_eq, Hbe by done. done.
Qed.

Lemma session_resolved_stays k evs pl so se post :
  Forall (λ ev, terminal_tag (ev_tag ev) = false) evs →
  collectOutput (cmd_options w) (payloads_of "Stdout" evs) = Some so →
  collectOutput (cmd_options w) (payloads_of "Stderr" evs) = Some se →
  ∃ w', deliver code (S (S k)) (evs ++ Event "Terminated" pl :: post) w = Some w' ∧
        promises w' !! p
        = Some (Resolved (Output (payload_code pl) (payload_signal pl) so se)).
Proof.
  intros Hevs Hso Hse.
  destruct (session_streams k evs pl so se Hevs Hso Hse) as (w1 & Hd1 & Hex1 & Hp1).
  destruct (deliver_executing code p bo be k post w1 Hex1) as (w2 & Hd2 & _ & Hkeep & _).
  exists w2. split.
  - change (evs ++ Event "Terminated" pl :: post)
      with (evs ++ [Event "Terminated" pl] ++ post).
    rewrite app_assoc, deliver_app, Hd1. exact Hd2.
  - rewrite (Hkeep _ Hp1); done.
Qed.

Lemma session_spawn_reply k evs r :
  Forall (λ ev, terminal_tag (ev_tag ev) = false) evs →
  ∃ w', deliver code (S (S k)) evs w = Some w' ∧
        promises (execute_reply p r w') !! p
        = Some match r with Ack _ => Pending | Nack err => Rejected err end.
Proof.
  intros Hevs. rewrite deliver_data by done. eexists. split; [reflexivity|].
  destruct r as [pid|err]; simpl; [done|]. by apply settle_pending.
Qed.

End Streams.

(** X11. [execute()] on a new command: for any interleaving of [Stdout],
    [Stderr] and unknown events followed by [Terminated], the promise
    resolves with the payload's code and signal and with [collectOutput] of
    the [Stdout] payloads and of the [Stderr] payloads, each in arrival
    order; the two streams never mix. *)
Theorem execute_aggregates_each_stream k prog av o st evs pl so se :
  Forall (λ ev, terminal_tag (ev_tag ev) = false) evs →
  collectOutput (cmd_options (new_Command prog av o st)) (payloads_of "Stdout" evs)
  = Some so →
  collectOutput (cmd_options (new_Command prog av o st)) (payloads_of "Stderr" evs)
  = Some se →
  ∃ w, deliver code (S (S k)) (evs ++ [Event "Terminated" pl])
         (execute (new_Command prog av o st)).1 = Some w ∧
       promises w !! (execute (new_Command prog av o st)).2
       = Some (Resolved (Output (payload_code pl) (payload_signal pl) so se)).
Proof.
  intros Hevs Hso Hse.
  destruct (session_streams 0 0 1 ltac:(lia) (execute (new_Command prog av o st)).1
              (executing_execute prog av o st) eq_refl eq_refl eq_refl
              k evs pl so se Hevs Hso Hse) as (w & Hd & _ & Hp).
  by exists w.
Qed.

(** X12. Once [Terminated] has resolved the promise of [execute()], nothing
    delivered later changes it: not a second [Terminated], not an [Error],
    not more data. *)
Theorem execute_first_terminated_wins k prog av o st evs pl so se post :
  Forall (λ ev, terminal_tag (ev_tag ev) = false) evs →
  collectOutput (cmd_options (new_Command prog av o st)) (payloads_of "Stdout" evs)
  = Some so →
  collectOutput (cmd_options (new_Command prog av o st)) (payloads_of "Stderr" evs)
  = Some se →
  ∃ w, deliver code (S (S k)) (evs ++ Event "Terminated" pl :: post)
         (execute (new_Command prog av o st)).1 = Some w ∧
       promises w !! (execute (new_Command prog av o st)).2
       = Some (Resolved (Output (payload_code pl) (payload_signal pl) so se)).
Proof.
  intros Hevs Hso Hse.
  apply (session_resolved_stays 0 0 1 ltac:(lia) (execute (new_Command prog av o st)).1
           (executing_execute prog av o st) eq_refl eq_refl eq_refl
           k evs pl so se post Hevs Hso Hse).
Qed.

(** X13. [this.spawn().catch(reject)]: when the bridge rejects the spawn,
    the promise of [execute()] is rejected with that failure, whatever data
    events came before; an acknowledgment leaves it pending. *)
Theorem execute_rejects_when_spawn_fails k prog av o st evs r :
  Forall (λ ev, terminal_tag (ev_tag ev) = false) evs →
  ∃ w, deliver code (S (S k)) evs (execute (new_Command prog av o st)).1 = Some w ∧
       promises (execute_reply (execute (new_Command prog av o st)).2 r w)
         !! (execute (new_Command prog av o st)).2
       = Some match r with Ack _ => Pending | Nack err => Rejected err end.
Proof.
  intros Hevs.
  apply (session_spawn_reply 0 0 1 ltac:(lia) (execute (new_Command prog av o st)).1
           (executing_execute prog av o st) eq_refl k evs r Hevs).
Qed.

(** ** [execute()] called twice on one command *)

(** Two listeners in the array, neither touching the arrays. *)
Lemma emit_pair k e n a w f1 f2 w1 w2 :
  listeners e n w = Some [f1; f2] →
  exec code (S (S k)) (TCall f1 a) w = Ret w1 () → heap w1 = heap w →
  exec code (S k) (TCall f2 a) w1 = Ret w2 () → heap w2 = heap w →
  emit code (S (S (S k))) e n a w = Ret w2 true.
Proof.
  intros (l & Hl & Hf)%listeners_Some Hc1 Hh1 Hc2 Hh2. unfold emit. rewrite Hl.
  rewrite (exec_iter_step code _ _ _ _ _ f1) by by rewrite Hf.
  rewrite Hc1. cbn [rbind].
  rewrite (exec_iter_step code _ _ _ _ _ f2) by by rewrite Hh1, Hf.
  rewrite Hc2. cbn [rbind].
  rewrite exec_iter_done; [done|]. by rewrite Hh2, Hf.
Qed.

Lemma deliver_stdout_twice k cs : ∀ w,
  executing_twice w →
  deliver code (S (S (S k))) (stdout_event <$> cs) w
  = Some (set_buffers (alter (λ l, l ++ cs) 0 (alter (λ l, l ++ cs) 2 (buffers w))) w).
Proof.
  induction cs as [|c cs IH]; intros w Hex.
  - simpl. rewrite !list_alter_id by (intros; apply app_nil_r). by destruct w.
  - cbn [fmap list_fmap deliver]. unfold stdout_event at 1.
    assert (on_event code (S (S (S k))) (Event "Stdout" c) w
            = Ret (push_buffer 2 c (push_buffer 0 c w)) ()) as ->.
    { destruct Hex as (_ & _ & H & _). unfold on_event. simpl.
      by rewrite (emit_pair k _ _ _ _ _ _ (push_buffer 0 c w)
                    (push_buffer 2 c (push_buffer 0 c w)) H). }
    rewrite IH by done. unfold push_buffer, set_buffers. simpl. do 2 f_equal.
    rewrite list_alter_alter_eq.
    rewrite (list_alter_alter_ne _ _ _ 2 0) by done.
    rewrite list_alter_alter_eq.
    apply list_alter_ext; [by intros l _; simpl; rewrite <- app_assoc|].
    apply list_alter_ext; [|done]. intros l _. simpl. by rewrite <- app_assoc.
Qed.

Lemma session_twice k cs pl so se w :
  executing_twice w →
  promises w !! 0 = Some Pending → promises w !! 1 = Some Pending →
  buffers w !! 0 = Some [] → buffers w !! 1 = Some [] →
  buffers w !! 2 = Some [] → buffers w !! 3 = Some [] →
  collectOutput (cmd_options w) cs = Some so →
  collectOutput (cmd_options w) [] = Some se →
  ∃ w', deliver code (S (S (S k))) ((stdout_event <$> cs) ++ [Event "Terminated" pl]) w
        = Some w' ∧
        promises w' !! 0
        = Some (Resolved (Output (payload_code pl) (payload_signal pl) so se)) ∧
        promises w' !! 1
        = Some (Resolved (Output (payload_code pl) (payload_signal pl) so se)).
Proof.
  intros Hex Hp0 Hp1 Hb0 Hb1 Hb2 Hb3 Hso Hse.
  rewrite deliver_app, deliver_stdout_twice by done.
  cbn [mbind option_bind deliver].
  set (w1 := set_buffers _ w).
  assert (buffers w1 !! 0 = Some cs ∧ buffers w1 !! 1 = Some [] ∧
          buffers w1 !! 2 = Some cs ∧ buffers w1 !! 3 = Some []) as (B0 & B1 & B2 & B3).
  { unfold w1. simpl.
    rewrite list_lookup_alter_eq, !list_lookup_alter_ne, list_lookup_alter_eq by done.
    rewrite !list_lookup_alter_ne by done.
    by rewrite Hb0, Hb1, Hb2, Hb3. }
  set (out := Resolved (Output (payload_code pl) (payload_signal pl) so se)).
  assert (on_event code (S (S (S k))) (Event "Terminated" pl) w1
          = Ret (settle 1 out (settle 0 out w1)) ()) as ->.
  { destruct Hex as (_ & H & _).
    change (listeners ESelf "close" w) with (listeners ESelf "close" w1) in H.
    unfold on_event. simpl.
    rewrite (emit_pair k _ _ _ _ _ _ (settle 0 out w1) (settle 1 out (settle 0 out w1)) H);
      [done| |apply heap_settle| |by rewrite !heap_settle].
    - unfold exec. change (cmd_options w1) with (cmd_options w).
      by rewrite B0, B1; simpl; rewrite Hso, Hse.
    - unfold exec. rewrite options_settle.
      change (cmd_options w1) with (cmd_options w).
      assert (buffers (settle 0 out w1) = buffers w1) as ->.
      { unfold settle. by destruct (promises w1 !! 0) as [[]|]. }
      by rewrite B2, B3; simpl; rewrite Hso, Hse. }
  eexists. split; [reflexivity|].
  assert (promises (settle 0 out w1) !! 0 = Some out) as H0 by by apply settle_pending.
  assert (promises (settle 0 out w1) !! 1 = Some Pending) as H1.
  { unfold settle. change (promises w1) with (promises w). rewrite Hp0. simpl.
    by rewrite list_lookup_insert_ne. }
  split.
  - unfold settle at 1. rewrite H1. simpl. by rewrite list_lookup_insert_ne.
  - by apply settle_pending.
Qed.

(** X17. [execute()] called twice on one command issues two requests, and
    both sets of listeners hang on the same emitters: the chunks delivered
    by either process fill the buffers of both calls, and the first
    [Terminated] resolves both promises with the same output. *)
Theorem execute_twice_shares_output k prog av o st cs pl so se :
  collectOutput (cmd_options (new_Command prog av o st)) cs = Some so →
  collectOutput (cmd_options (new_Command prog av o st)) [] = Some se →
  length (sent (execute (execute (new_Command prog av o st)).1).1) = 2 ∧
  (execute (execute (new_Command prog av o st)).1).2 = 1 ∧
  ∃ w, deliver code (S (S (S k))) ((stdout_event <$> cs) ++ [Event "Terminated" pl])
         (execute (execute (new_Command prog av o st)).1).1 = Some w ∧
       promises w !! 0
       = Some (Resolved (Output (payload_code pl) (payload_signal pl) so se)) ∧
       promises w !! 1
       = Some (Resolved (Output (payload_code pl) (payload_signal pl) so se)).
Proof.
  intros Hso Hse. split; [done|]. split; [done|].
  by apply session_twice.
Qed.

End Coverage.

(** ** [collectOutput] in raw mode, and the request built from a command *)

Lemma Uint8Array_app l1 l2 : Uint8Array (l1 ++ l2) = Uint8Array l1 ++ Uint8Array l2.
Proof. unfold Uint8Array. apply fmap_app. Qed.

Lemma Uint8Array_idemp l : Uint8Array (Uint8Array l) = Uint8Array l.
Proof.
  unfold Uint8Array. rewrite <- list_fmap_compose. apply list_fmap_ext.
  intros _ z _. simpl. by rewrite Z.mod_mod.
Qed.

Lemma Uint8Array_is_byte l : Forall is_byte (Uint8Array l).
Proof.
  unfold Uint8Array. apply Forall_fmap, Forall_forall. intros z _. simpl.
  unfold is_byte. apply Z.mod_pos_bound. lia.
Qed.

Lemma collect_raw_wraps chunks : ∀ acc,
  Uint8Array acc = acc →
  foldl (λ acc c, p ← acc; s ← spread c; Some (Uint8Array (p ++ s ++ [10%Z])))
        (Some acc) (PBytes <$> chunks)
  = Some (acc ++ concat ((λ c, Uint8Array c ++ [10%Z]) <$> chunks)).
Proof.
  induction chunks as [|c chunks IH]; intros acc Hacc.
  - simpl. by rewrite app_nil_r.
  - rewrite !fmap_cons. cbn [foldl mbind option_bind spread].
    rewrite !Uint8Array_app, Hacc.
    change (Uint8Array [10%Z]) with [10%Z].
    rewrite IH.
    + simpl. by rewrite <- !app_assoc.
    + rewrite !Uint8Array_app, Hacc, Uint8Array_idemp. done.
Qed.

(** X14. Raw mode: [collectOutput] of arrays of numbers is the arrays one
    after the other, each number stored modulo 256 and a 10 after each
    array; the result holds bytes only, and no array gives the empty one. *)
Theorem collectOutput_raw_wraps_numbers o chunks :
  encoding o = Some "raw" →
  collectOutput o (PBytes <$> chunks)
  = Some (OBytes (concat ((λ c, ((λ z, z mod 256)%Z <$> c) ++ [10%Z]) <$> chunks))) ∧
  Forall is_byte (concat ((λ c, ((λ z, z mod 256)%Z <$> c) ++ [10%Z]) <$> chunks)) ∧
  collectOutput o [] = Some (OBytes []).
Proof.
  intros Hraw. unfold collectOutput.
  destruct (decide (encoding o = Some "raw")) as [_|]; [|done].
  split; [|split; [|done]].
  - change (Uint8Array []) with (@nil Z). by rewrite collect_raw_wraps.
  - apply Forall_concat, Forall_fmap, Forall_forall. intros c _. simpl.
    apply Forall_app_2; [apply Uint8Array_is_byte|].
    repeat constructor; unfold is_byte; lia.
Qed.

(** X15. [new Command(program, args)] keeps the caller's array by
    reference: a change the caller makes before [spawn()] is part of what
    [spawn()] sends, and from then on the array is frozen, so later
    attempts change nothing. *)
Theorem command_shares_args_until_spawn prog l o st xs g ms :
  st !! l = Some (false, xs) →
  ∃ r, sent (spawn (mutate l g (new_Command prog (ARef l) o st))) = [r] ∧
       rq_program r = prog ∧
       request_args (spawn (mutate l g (new_Command prog (ARef l) o st))) r
       = Some (g xs) ∧
       request_args
         (apply_mutations ms (spawn (mutate l g (new_Command prog (ARef l) o st)))) r
       = Some (g xs).
Proof.
  intros Hl. eexists. split; [reflexivity|]. split; [reflexivity|].
  assert (store (spawn (mutate l g (new_Command prog (ARef l) o st))) !! l
          = Some (true, g xs)) as Hfz.
  { unfold spawn, execute_fn, freeze, mutate. simpl.
    by rewrite !list_lookup_alter_eq, Hl. }
  unfold request_args. simpl rq_args. cbn match.
  split; [by rewrite Hfz|].
  by rewrite (apply_mutations_frozen ms _ _ _ Hfz).
Qed.

(** X16. [typeof args === "string" ? [args] : args] and [args = []]: a
    command created with a single string sends the one-element array of
    that string, a command created without arguments sends the empty
    array; neither can be changed afterwards. *)
Theorem command_wraps_string_argument prog s o st ms :
  (∃ r, sent (spawn (new_Command prog (AStr s) o st)) = [r] ∧
        request_args (apply_mutations ms (spawn (new_Command prog (AStr s) o st))) r
        = Some [s]) ∧
  (∃ r, sent (spawn (new_Command prog AUndefined o st)) = [r] ∧
        request_args (apply_mutations ms (spawn (new_Command prog AUndefined o st))) r
        = Some []).
Proof.
  split; (eexists; split; [reflexivity|]); unfold request_args; simpl rq_args; cbn match.
  - rewrite (apply_mutations_frozen ms _ _ [s]); [done|].
    unfold spawn, execute_fn, freeze. simpl.
    rewrite list_lookup_alter_eq. by rewrite lookup_app_r, Nat.sub_diag by lia.
  - rewrite (apply_mutations_frozen ms _ _ []); [done|].
    unfold spawn, execute_fn, freeze. simpl.
    rewrite list_lookup_alter_eq. by rewrite lookup_app_r, Nat.sub_diag by lia.
Qed.

(** [Command.sidecar] builds what [Command.create] builds except for
    the [sidecar] option, which it sets: [spawn()] sends the same program,
    the same array and the same encoding, with [sidecar: true]. *)
Lemma sidecar_sets_only_the_flag prog a o st :
  sent (spawn (Command_sidecar prog a o st))
  = (λ r, Request (rq_program r) (rq_args r)
            (Options (encoding (rq_options r)) true) (rq_onEventFn r))
    <$> sent (spawn (create prog a o st)) ∧
  store (spawn (Command_sidecar prog a o st)) = store (spawn (create prog a o st)) ∧
  sidecar (cmd_options (Command_sidecar prog a o st)) = true ∧
  sidecar (cmd_options (create prog a o st)) = sidecar (default (Options None false) o) ∧
  ∀ e n, entries e n (spawn (Command_sidecar prog a o st)) = [].
Proof. repeat split. Qed.

(** ** Witnesses *)

Lemma plain_quiet f i : f = FUser i → plain quiet f.
Proof. intros ->. by exists i. Qed.

(** Witness for X1. *)
Lemma emit_calls_listeners_in_order_witness :
  emit quiet 4 ESelf "data" (PText "x")
    (on ESelf "data" (FUser 1) (on ESelf "data" (FUser 0) fresh))
  = Ret (set_calls [(0, PText "x"); (1, PText "x")]
           (on ESelf "data" (FUser 1) (on ESelf "data" (FUser 0) fresh))) true.
Proof.
  apply (emit_calls_listeners_in_order quiet 0 ESelf "data" (PText "x")
           (on ESelf "data" (FUser 1) (on ESelf "data" (FUser 0) fresh)) [0; 1]).
  - apply registry_ok_on, registry_ok_on, registry_ok_fresh.
  - reflexivity.
  - repeat constructor.
Defined.

(** Witness for X2. *)
Lemma prependListener_is_called_first_witness :
  emit quiet 4 ESelf "data" (PText "x")
    (prependListener ESelf "data" (FUser 1) (on ESelf "data" (FUser 0) fresh))
  = Ret (set_calls [(1, PText "x"); (0, PText "x")]
           (prependListener ESelf "data" (FUser 1) (on ESelf "data" (FUser 0) fresh)))
        true.
Proof.
  apply (prependListener_is_called_first quiet 0 ESelf "data" 1 (PText "x")
           (on ESelf "data" (FUser 0) fresh)).
  - apply registry_ok_on, registry_ok_fresh.
  - reflexivity.
  - repeat constructor; by eapply plain_quiet.
Defined.

(** Witness for X3. *)
Lemma removeAllListeners_named_witness :
  listenerCount ESelf "data"
    (removeAllListeners ESelf (Some "data") (on ESelf "data" (FUser 0) fresh)) = 0 ∧
  emit quiet 4 ESelf "data" (PText "x")
    (removeAllListeners ESelf (Some "data") (on ESelf "data" (FUser 0) fresh))
  = Ret (removeAllListeners ESelf (Some "data") (on ESelf "data" (FUser 0) fresh)) false.
Proof.
  destruct (removeAllListeners_named quiet 4 ESelf "data" (PText "x")
              (on ESelf "data" (FUser 0) fresh)) as (H1 & H2 & _).
  - discriminate.
  - split; [exact H1|exact H2].
Defined.

(** Witness for X4. *)
Lemma removeAllListeners_all_witness :
  listenerCount ESelf "data"
    (removeAllListeners ESelf (Some "") (on ESelf "data" (FUser 0) fresh)) = 0.
Proof.
  apply (removeAllListeners_all quiet 4 ESelf (Some "") "data" (PText "x")
           (on ESelf "data" (FUser 0) fresh)).
  right. reflexivity.
Defined.

(** Witness for X5. *)
Lemma registration_leaves_other_events_witness :
  entries EStdout "data" (off ESelf "close" (FUser 0) (on EStdout "data" (FUser 1) fresh))
  = entries EStdout "data" (on EStdout "data" (FUser 1) fresh).
Proof.
  apply (registration_leaves_other_events ESelf "close" (FUser 0)
           (on EStdout "data" (FUser 1) fresh) EStdout "data").
  - apply registry_ok_on, registry_ok_fresh.
  - intros [H _]. discriminate H.
Defined.

(** Witness for X6. *)
Lemma listener_added_during_emit_is_called_witness :
  ∃ w', emit adder 6 ESelf "e" (PText "x")
          (on ESelf "e" (FUser 2) (on ESelf "e" (FUser 0) fresh)) = Ret w' true ∧
        calls w' = [(0, PText "x"); (2, PText "x"); (1, PText "x")] ∧
        entries ESelf "e" w' = [FUser 0; FUser 2; FUser 1].
Proof.
  destruct (listener_added_during_emit_is_called adder 0 ESelf "e" (PText "x")
              (on ESelf "e" (FUser 2) (on ESelf "e" (FUser 0) fresh))
              [] [FUser 2] 0 1) as (w' & H1 & H2 & H3 & _).
  - apply registry_ok_on, registry_ok_on, registry_ok_fresh.
  - reflexivity.
  - constructor.
  - repeat constructor. by exists 2.
  - reflexivity.
  - reflexivity.
  - exists w'. split; [exact H1|]. split; [exact H2|exact H3].
Defined.



(** Witness for X9. *)
Lemma prependOnceListener_fires_first_once_witness :
  ∃ w1 w2,
    emit quiet 5 ESelf "e" (PText "first")
      (prependOnceListener ESelf "e" (FUser 1) (on ESelf "e" (FUser 0) fresh))
    = Ret w1 true ∧
    calls w1 = [(1, PText "first"); (0, PText "first")] ∧
    emit quiet 3 ESelf "e" (PText "second") w1 = Ret w2 true ∧
    calls w2 = calls w1 ++ [(0, PText "second")] ∧
    entries ESelf "e" w2 = [FUser 0].
Proof.
  apply (prependOnceListener_fires_first_once quiet 0 ESelf "e" 1
           (PText "first") (PText "second") (on ESelf "e" (FUser 0) fresh)).
  - apply registry_ok_on, registry_ok_fresh.
  - reflexivity.
  - repeat constructor; by eapply plain_quiet.
Defined.

(** Witness for X11. *)
Lemma execute_aggregates_each_stream_witness :
  ∃ w, deliver quiet 2
         ([Event "Stdout" (PText "out1"); Event "Stderr" (PText "err1");
           Event "Stdout" (PText "out2")] ++ [Event "Terminated" (PExit (Some 1%Z) None)])
         (execute (new_Command "sh" AUndefined None [])).1 = Some w ∧
       promises w !! (execute (new_Command "sh" AUndefined None [])).2
       = Some (Resolved (Output (JNum 1) JNull
                           (OText ("out1" +:+ LF +:+ "out2")) (OText "err1"))).
Proof.
  apply (execute_aggregates_each_stream quiet 0 "sh" AUndefined None []
           [Event "Stdout" (PText "out1"); Event "Stderr" (PText "err1");
            Event "Stdout" (PText "out2")] (PExit (Some 1%Z) None)).
  - repeat constructor.
  - reflexivity.
  - reflexivity.
Defined.

(** Witness for X12. *)
Lemma execute_first_terminated_wins_witness :
  ∃ w, deliver quiet 2
         ([Event "Stdout" (PText "ok")]
            ++ Event "Terminated" (PExit (Some 0%Z) None)
            :: [Event "Error" (PText "late"); Event "Terminated" (PExit (Some 9%Z) None)])
         (execute (new_Command "sh" AUndefined None [])).1 = Some w ∧
       promises w !! (execute (new_Command "sh" AUndefined None [])).2
       = Some (Resolved (Output (JNum 0) JNull (OText "ok") (OText ""))).
Proof.
  apply (execute_first_terminated_wins quiet 0 "sh" AUndefined None []
           [Event "Stdout" (PText "ok")] (PExit (Some 0%Z) None) (OText "ok") (OText "")
           [Event "Error" (PText "late"); Event "Terminated" (PExit (Some 9%Z) None)]).
  - repeat constructor.
  - reflexivity.
  - reflexivity.
Defined.

(** Witness for X13. *)
Lemma execute_rejects_when_spawn_fails_witness :
  ∃ w, deliver quiet 2 [Event "Stdout" (PText "x")]
         (execute (new_Command "sh" AUndefined None [])).1 = Some w ∧
       promises (execute_reply (execute (new_Command "sh" AUndefined None [])).2
                   (Nack (PText "not allowed")) w)
         !! (execute (new_Command "sh" AUndefined None [])).2
       = Some (Rejected (PText "not allowed")).
Proof.
  apply (execute_rejects_when_spawn_fails quiet 0 "sh" AUndefined None []
           [Event "Stdout" (PText "x")] (Nack (PText "not allowed"))).
  repeat constructor.
Defined.

(** Witness for X14. *)
Lemma collectOutput_raw_wraps_numbers_witness :
  collectOutput (Options (Some "raw") false) (PBytes <$> [[256; 1]; [-1]]%Z)
  = Some (OBytes [0; 1; 10; 255; 10]%Z).
Proof.
  apply (collectOutput_raw_wraps_numbers (Options (Some "raw") false) [[256; 1]; [-1]]%Z).
  reflexivity.
Defined.

(** Witness for X15. *)
Lemma command_shares_args_until_spawn_witness :
  ∃ r, sent (spawn (mutate 0 (λ xs, xs ++ ["-l"])
                      (new_Command "ls" (ARef 0) None [(false, ["-a"])]))) = [r] ∧
       rq_program r = "ls" ∧
       request_args (spawn (mutate 0 (λ xs, xs ++ ["-l"])
                              (new_Command "ls" (ARef 0) None [(false, ["-a"])]))) r
       = Some ["-a"; "-l"] ∧
       request_args
         (apply_mutations [(0, λ _, ["rm"])]
            (spawn (mutate 0 (λ xs, xs ++ ["-l"])
                      (new_Command "ls" (ARef 0) None [(false, ["-a"])])))) r
       = Some ["-a"; "-l"].
Proof.
  apply (command_shares_args_until_spawn "ls" 0 None [(false, ["-a"])] ["-a"]
           (λ xs, xs ++ ["-l"]) [(0, λ _, ["rm"])]).
  reflexivity.
Defined.

(** Witness for X17. *)
Lemma execute_twice_shares_output_witness :
  length (sent (execute (execute (new_Command "sh" AUndefined None [])).1).1) = 2 ∧
  (execute (execute (new_Command "sh" AUndefined None [])).1).2 = 1 ∧
  ∃ w, deliver quiet 3 ((stdout_event <$> [PText "a"]) ++ [Event "Terminated" (PExit (Some 0%Z) None)])
         (execute (execute (new_Command "sh" AUndefined None [])).1).1 = Some w ∧
       promises w !! 0 = Some (Resolved (Output (JNum 0) JNull (OText "a") (OText ""))) ∧
       promises w !! 1 = Some (Resolved (Output (JNum 0) JNull (OText "a") (OText ""))).
Proof.
  apply (execute_twice_shares_output quiet 0 "sh" AUndefined None []
           [PText "a"] (PExit (Some 0%Z) None) (OText "a") (OText "")).
  - reflexivity.
  - reflexivity.
Defined.
